(** * Constructor normalisers and component aggregators of package [config]

    A shallow embedding of [config/reflect_types.go], [config/transport.go],
    [config/security.go] and the stream-muxer file of the same package,
    followed by the properties of the three constructor normalisers
    ([TransportConstructor], [SecurityConstructor], [MuxerConstructor]) and
    of the three aggregators ([makeTransports], [makeSecurityTransport],
    [makeMuxer]). *)

From stdpp Require Import base option list strings gmap pretty.

Set Default Proof Using "Type".
Local Open Scope string_scope.

(** [len(x) > 0] is decided like [0 < len(x)]. *)
Global Instance nat_gt_dec (x y : nat) : Decision (x > y) := decide (y < x).

(** ** Go types as package [reflect] presents them *)

(** The kinds [reflect.Kind] that occur in this package. *)
Module reflect.
Inductive Kind : Type :=
  | Interface | Ptr | String | Struct | Func | Int.
End reflect.

Global Instance Kind_eq_dec : EqDecision reflect.Kind.
Proof. solve_decision. Defined.

(** A type descriptor: its string form (which identifies the type), what
    [Name()] returns (empty for a pointer type), its kind and its method
    set.  For an interface type the method set is the list of methods it
    requires, for any other type the list of methods its values have. *)
Record rtype : Type := RType {
  str : string;
  Name : string;
  kind : reflect.Kind;
  methods : list string;
}.

Global Instance rtype_eq_dec : EqDecision rtype.
Proof. solve_decision. Defined.

(** [implements T U]: the method set of [T] covers every method [U]
    requires. *)
Definition implements (T U : rtype) : bool :=
  forallb (fun m => bool_decide (m ∈ methods T)) (methods U).

(** ** Outcomes: a Go call returns or panics *)

Inductive outcome (A : Type) : Type :=
  | Done (a : A)
  | Panic (msg : string).
Global Arguments Done {A} a.
Global Arguments Panic {A} msg.

Global Instance outcome_ret : MRet outcome := fun _ a => Done a.
Global Instance outcome_bind : MBind outcome := fun _ _ k m =>
  match m with
  | Done a => k a
  | Panic msg => Panic msg
  end.

(** ** [reflect.Type] values

    A [reflect.Type] is an interface value: it is [nil] or it holds a type
    descriptor. *)
Definition Type_ : Type := option rtype.

(** [t.Implements(u)] of package [reflect].  The call dereferences its
    receiver, refuses a [nil] argument and refuses an argument that is not
    an interface type. *)
Definition Type_Implements (t u : Type_) : outcome bool :=
  match t with
  | None => Panic "invalid memory address or nil pointer dereference"
  | Some T =>
    match u with
    | None => Panic "reflect: nil type passed to Type.Implements"
    | Some U =>
      if decide (kind U = reflect.Interface) then Done (implements T U)
      else Panic "reflect: non-interface type passed to Type.Implements"
    end
  end.

(** ** Go values

    The values this package handles.  An interface value ([interface{}],
    [error], [transport.Transport], ...) is [None] when it is [nil] and
    [Some v] when it holds the value [v]; [dynType v] is the dynamic type
    of [v].  A function is a value of a type of kind [Func]; what calling
    it does is kept apart (see [gofunc]). *)
#[warnings="-register-all"]
Inductive value : Type :=
  (* a [peer.ID], which is a string *)
  | PeerID (id : string)
  (* the [nil] pointer of the pointer type [T] *)
  | TypedNil (T : rtype)
  (* any other value of the host or of the caller, of dynamic type [T] *)
  | Object (T : rtype) (label : string)
  (* the error that [fmt.Errorf] returns *)
  | ErrorString (msg : string)
  (* a [*tptu.Upgrader] *)
  | UpgraderPtr (Protector Secure Muxer : option value) (Filters : value)
  (* [insecure.New(id)], a [*insecure.Transport] *)
  | InsecureTransport (id : string)
  (* [&secio.Transport{LocalID: ..., PrivateKey: ...}] *)
  | SecioTransport (LocalID : string) (PrivateKey : option value)
  (* a [*csms.SSMuxer] and what was added to it *)
  | SSMuxer (tpts : list (string * option value))
  (* a [*msmux.Transport] and what was added to it *)
  | MsmuxTransport (tpts : list (string * option value))
  (* [tcp.NewTCPTransport(u)] and [ws.New(u)] *)
  | TcpTransport (Upgrader : value)
  | WsTransport (Upgrader : value).

(** The interface types of the packages this one imports, with the methods
    each requires. *)
Definition error_iface : rtype := RType "error" "error" reflect.Interface ["Error"].
Definition transport_Transport : rtype :=
  RType "transport.Transport" "Transport" reflect.Interface
        ["CanDial"; "Dial"; "Listen"; "Protocols"; "Proxy"].
Definition security_Transport : rtype :=
  RType "security.Transport" "Transport" reflect.Interface
        ["SecureInbound"; "SecureOutbound"].
Definition mux_Transport : rtype :=
  RType "mux.Transport" "Transport" reflect.Interface ["NewConn"].
Definition host_Host : rtype :=
  RType "host.Host" "Host" reflect.Interface
        ["Addrs"; "Close"; "Connect"; "ID"; "Mux"; "Network"; "NewStream";
         "Peerstore"; "SetStreamHandler"].
Definition inet_Network : rtype :=
  RType "inet.Network" "Network" reflect.Interface
        ["Close"; "ClosePeer"; "Conns"; "DialPeer"; "Listen"; "LocalPeer";
         "NewStream"; "Peers"; "Peerstore"].
Definition pnet_Protector : rtype :=
  RType "pnet.Protector" "Protector" reflect.Interface
        ["Fingerprint"; "Protect"].
Definition crypto_PrivKey : rtype :=
  RType "crypto.PrivKey" "PrivKey" reflect.Interface
        ["Bytes"; "Equals"; "GetPublic"; "Sign"].
Definition crypto_PubKey : rtype :=
  RType "crypto.PubKey" "PubKey" reflect.Interface
        ["Bytes"; "Equals"; "Verify"].
Definition pstore_Peerstore : rtype :=
  RType "pstore.Peerstore" "Peerstore" reflect.Interface
        ["AddAddr"; "Addrs"; "PeerInfo"; "Peers"; "PrivKey"; "PubKey"].

(** The concrete types of the imported packages that this package builds
    values of. *)
Definition peer_ID : rtype :=
  RType "peer.ID" "ID" reflect.String ["Pretty"; "String"].
Definition errorString_ptr : rtype :=
  RType "*errors.errorString" "" reflect.Ptr ["Error"].
Definition tptu_Upgrader_ptr : rtype :=
  RType "*tptu.Upgrader" "" reflect.Ptr
        ["UpgradeInbound"; "UpgradeListener"; "UpgradeOutbound"].
Definition filter_Filters_ptr : rtype :=
  RType "*filter.Filters" "" reflect.Ptr
        ["AddDialFilter"; "AddrBlocked"; "Filters"; "Remove"].
Definition insecure_Transport_ptr : rtype :=
  RType "*insecure.Transport" "" reflect.Ptr
        ["LocalPeer"; "LocalPrivateKey"; "SecureInbound"; "SecureOutbound"].
Definition secio_Transport_ptr : rtype :=
  RType "*secio.Transport" "" reflect.Ptr ["SecureInbound"; "SecureOutbound"].
Definition csms_SSMuxer_ptr : rtype :=
  RType "*csms.SSMuxer" "" reflect.Ptr
        ["AddTransport"; "SecureInbound"; "SecureOutbound"].
Definition msmux_Transport_ptr : rtype :=
  RType "*msmux.Transport" "" reflect.Ptr ["AddTransport"; "NewConn"].
Definition tcp_TcpTransport_ptr : rtype :=
  RType "*tcp.TcpTransport" "" reflect.Ptr
        ["CanDial"; "Dial"; "Listen"; "Protocols"; "Proxy"].
Definition ws_WebsocketTransport_ptr : rtype :=
  RType "*ws.WebsocketTransport" "" reflect.Ptr
        ["CanDial"; "Dial"; "Listen"; "Protocols"; "Proxy"].
Definition yamux_Transport_ptr : rtype :=
  RType "*yamux.Transport" "" reflect.Ptr ["NewConn"].
Definition mplex_Transport_ptr : rtype :=
  RType "*mplex.Transport" "" reflect.Ptr ["NewConn"].

(** Constants and variables of the imported packages. *)
Definition secio_ID : string := "/secio/1.0.0".
Definition insecure_ID : string := "/plaintext/1.0.0".
Definition yamux_DefaultTransport : value :=
  Object yamux_Transport_ptr "yamux.DefaultTransport".
Definition mplex_DefaultTransport : value :=
  Object mplex_Transport_ptr "mplex.DefaultTransport".

Definition dynType (v : value) : rtype :=
  match v with
  | PeerID _ => peer_ID
  | TypedNil T => T
  | Object T _ => T
  | ErrorString _ => errorString_ptr
  | UpgraderPtr _ _ _ _ => tptu_Upgrader_ptr
  | InsecureTransport _ => insecure_Transport_ptr
  | SecioTransport _ _ => secio_Transport_ptr
  | SSMuxer _ => csms_SSMuxer_ptr
  | MsmuxTransport _ => msmux_Transport_ptr
  | TcpTransport _ => tcp_TcpTransport_ptr
  | WsTransport _ => ws_WebsocketTransport_ptr
  end.

(** [fmt.Errorf] with the message already formatted. *)
Definition Errorf (msg : string) : value := ErrorString msg.

(** The conversion [(I)(nil)] of [nil] to an interface type: the [nil]
    interface value, whatever [I] is. *)
Definition nil_interface (I : rtype) : option value := None.

(** [reflect.TypeOf(i)]: the dynamic type of [i], and [nil] when [i] is a
    [nil] interface value. *)
Definition TypeOf (i : option value) : Type_ := dynType <$> i.

(** [x.(I)] for an interface type [I], in its two-result form. *)
Definition assert_iface (I : rtype) (x : option value) : option value :=
  match x with
  | Some v => if implements (dynType v) I then Some v else None
  | None => None
  end.

(** [x.(I)] in its one-result form, which panics where the other form
    reports [false]. *)
Definition must_iface (I : rtype) (x : option value) : outcome value :=
  match assert_iface I x with
  | Some v => Done v
  | None => Panic ("interface conversion: interface is not " ++ str I)
  end.

(** [x.( *T )] for a concrete type [T], two-result form: the dynamic type
    of [x] is exactly [T]. *)
Definition is_type (T : rtype) (x : option value) : bool :=
  match x with
  | Some v => bool_decide (dynType v = T)
  | None => false
  end.

(** ** The host context

    The host and its peerstore are read through the methods that this
    package calls on them; these methods are accessors and are taken to
    return without touching any state. *)

(** A peerstore: itself as an interface value, and the two key lookups. *)
Record Peerstore_ : Type := {
  pstore_value : value;
  PrivKey : string -> option value;
  PubKey : string -> option value;
}.

(** A [host.Host], through the methods this package calls; [host_value] is
    the host itself as an interface value. *)
Record Host : Type := {
  host_value : value;
  ID : string;
  Network : option value;
  Peerstore : Peerstore_;
}.

(** A [*tptu.Upgrader] with its four fields. *)
Record Upgrader : Type := {
  Protector : option value;
  Secure : option value;
  Muxer : option value;
  Filters : value;
}.

(** The upgrader as an interface value. *)
Definition upgrader_value (u : Upgrader) : value :=
  UpgraderPtr (Protector u) (Secure u) (Muxer u) (Filters u).

(** ** Code supplied by the caller, and the calls made to it *)

Section Config.

(** [W] is the state that the caller's functions read and write: a factory
    is a Go closure and may do anything to it. *)
Context {W : Type}.

(** A piece of caller code: from a state to a new state and a result or a
    panic. *)
Definition user_code (A : Type) : Type := W -> W * outcome A.

Global Instance user_code_ret : MRet user_code := fun _ a w => (w, Done a).
Global Instance user_code_bind : MBind user_code := fun _ _ k m w =>
  match m w with
  | (w', Done a) => k a w'
  | (w', Panic msg) => (w', Panic msg)
  end.

(** A panic raised by this package or by [reflect]. *)
Definition panic {A : Type} (msg : string) : user_code A :=
  fun w => (w, Panic msg).

(** A step that may panic and touches no state. *)
Definition lift {A : Type} (o : outcome A) : user_code A :=
  fun w => (w, o).

(** A Go function value as [reflect] sees it: the parameter types
    [t.In(i)], the result types [t.Out(i)], and what calling it does. *)
Record gofunc : Type := GoFunc {
  In : list rtype;
  Out : list rtype;
  body : list value -> user_code (list (option value));
}.

(** The type of a function of an unnamed function type, as a function
    literal or a declared function is: its string form is its signature,
    its kind is [Func] and it has no methods. *)
Definition func_type (f : gofunc) : rtype :=
  RType ("func(" ++ String.concat ", " (str <$> In f) ++ ")"
           ++ match Out f with
              | [] => ""
              | [T] => " " ++ str T
              | _ => " (" ++ String.concat ", " (str <$> Out f) ++ ")"
              end)
        "" reflect.Func [].

(** What a caller passes as [interface{}]:
    - [DNil]: [nil];
    - [DValue v]: the value [v]; a type descriptor holds no signature, so a
      [v] whose type is of kind [Func] stands for a function of a named
      type with no parameter and no result;
    - [DFunc f]: the function [f], of an unnamed function type;
    - [DNamedFunc v f]: a function of a named function type, which may have
      methods: [v] is the function as a value, with its type, and [f] gives
      its signature and what calling it does. *)
Inductive descriptor : Type :=
  | DNil
  | DValue (v : value)
  | DFunc (f : gofunc)
  | DNamedFunc (v : value) (f : gofunc).

(** The descriptor as an interface value, for the type assertion and for
    [reflect.ValueOf]. *)
Definition as_interface (d : descriptor) : option value :=
  match d with
  | DNil => None
  | DValue v => Some v
  | DFunc f => Some (Object (func_type f) "func")
  | DNamedFunc v _ => Some v
  end.

(** [reflect.ValueOf(x).Type()]: [Type] panics on the zero [Value] that
    [ValueOf] returns for [nil]. *)
Definition Type_of (d : descriptor) : outcome rtype :=
  match as_interface d with
  | Some v => Done (dynType v)
  | None => Panic "reflect: call of reflect.Value.Type on zero Value"
  end.

(** The function that a descriptor of kind [Func] is: [None] stands for the
    function with no parameter and no result that a plain value of kind
    [Func] is. *)
Definition as_function (d : descriptor) : option gofunc :=
  match d with
  | DFunc f | DNamedFunc _ f => Some f
  | DNil | DValue _ => None
  end.

(** [reflect.ValueOf(x)]: the zero [Value] for a [nil] interface value. *)
Definition ValueOf (x : option value) : option value := x.

(** [T] is assignable to [U]: the two are the same type, or [U] is an
    interface type that [T] implements. *)
Definition assignable (T U : rtype) : bool :=
  bool_decide (T = U)
  || (bool_decide (kind U = reflect.Interface) && implements T U).

(** [v.Call(arguments)]: [reflect] refuses a wrong number of arguments, a
    zero [Value] among them and an argument that is not assignable to its
    parameter, and otherwise runs the function. *)
Definition Call (v : gofunc) (arguments : list (option value))
  : user_code (list (option value)) :=
  if decide (length arguments = length (In v)) then
    match mapM id arguments with
    | Some args =>
      if decide (Forall2 (fun a T => assignable (dynType a) T = true)
                         args (In v))
      then body v args
      else panic "reflect: Call using a value of the wrong type"
    | None => panic "reflect: Call using zero Value argument"
    end
  else panic "reflect: Call with wrong number of input arguments".

(** ** [config/reflect_types.go]

    Each variable is [reflect.TypeOf] of the value written in the source.
    Nine of them, and [transportType] below, are given the [nil] of an
    interface type, which is the [nil] interface value. *)

Definition errorType : Type_ := TypeOf (nil_interface error_iface).
Definition upgraderType : Type_ := TypeOf (Some (TypedNil tptu_Upgrader_ptr)).
Definition hostType : Type_ := TypeOf (nil_interface host_Host).
Definition networkType : Type_ := TypeOf (nil_interface inet_Network).
Definition muxType : Type_ := TypeOf (nil_interface mux_Transport).
Definition securityType : Type_ := TypeOf (nil_interface security_Transport).
Definition protectorType : Type_ := TypeOf (nil_interface pnet_Protector).
Definition filtersType : Type_ := TypeOf (Some (TypedNil filter_Filters_ptr)).
Definition peerIDType : Type_ := TypeOf (Some (PeerID "")).
Definition privKeyType : Type_ := TypeOf (nil_interface crypto_PrivKey).
Definition pubKeyType : Type_ := TypeOf (nil_interface crypto_PubKey).
Definition pstoreType : Type_ := TypeOf (nil_interface pstore_Peerstore).

(** [transportType], declared in [config/transport.go]. *)
Definition transportType : Type_ := TypeOf (nil_interface transport_Transport).

(** ** What the three normalisers share *)

(** An entry of [transportArgTypes], [securityArgTypes] or [muxArgTypes];
    [C] is what the [New] function takes: the host and the upgrader for a
    transport, the host alone for the other two. *)
Record ArgType (C : Type) : Type := {
  Type' : Type_;
  New : C -> option value;
}.
Global Arguments Type' {C} _.
Global Arguments New {C} _.

(** The three-way [switch t.NumOut()] on the result types: [None] when the
    results are accepted, the error returned otherwise. *)
Definition check_results (out : list rtype) : outcome (option value) :=
  let case_1 (out0 : rtype) : outcome (option value) :=
    ok ← Type_Implements (Some out0) transportType;
    if negb ok then
      Done (Some (Errorf "expected first return value from transport constructor to be a transport"))
    else Done None in
  match out with
  | [out0; out1] =>
    if decide (Some out1 ≠ errorType) then
      Done (Some (Errorf "expected (optional) second return value from transport constructor to be an error"))
    else case_1 out0
  | [out0] => case_1 out0
  | _ =>
    Done (Some (Errorf "expected transport constructor to return a transport and, optionally, an error"))
  end.

(** The inner loop [for _, at := range ...ArgTypes]: the [New] of the first
    entry whose type implements [argType], if there is one. *)
Fixpoint first_match {C : Type} (argTypes : list (ArgType C)) (argType : rtype)
  : outcome (option (C -> option value)) :=
  match argTypes with
  | [] => Done None
  | at_ :: rest =>
    ok ← Type_Implements (Type' at_) (Some argType);
    if (ok : bool) then Done (Some (New at_)) else first_match rest argType
  end.

(** The loop labelled [outer].  Its body ends in one of two ways: the inner
    loop finds an entry, stores it and runs [break outer], which leaves the
    labelled loop; or the inner loop finds none and the function returns
    the error.  So the body runs for [i = 0] only, and the slots of the
    later parameters keep the [nil] that [make] gave them. *)
Definition resolve_arguments {C : Type} (argTypes : list (ArgType C))
    (In_ : list rtype)
  : outcome (list (option (C -> option value)) + value) :=
  let argConstructors := replicate (length In_) None in
  let i := 0 in
  match In_ !! i with
  | None => Done (inl argConstructors)
  | Some argType =>
    found ← first_match argTypes argType;
    match found with
    | Some new => Done (inl (<[i := Some new]> argConstructors))
    | None =>
      Done (inr (Errorf ("argument " ++ pretty i
                  ++ " of transport constructor has an unexpected type "
                  ++ Name argType)))
    end
  end.

(** The body of the loop that fills [arguments]: a [nil] slot is a [nil]
    function and calling it panics. *)
Definition make_arguments {C : Type}
    (argConstructors : list (option (C -> option value))) (ctx : C)
  : outcome (list (option value)) :=
  mapM (fun makeArg : option (C -> option value) =>
          match makeArg with
          | Some f => Done (ValueOf (f ctx))
          | None => Panic "invalid memory address or nil pointer dereference"
          end) argConstructors.

(** [x.IsNil()] for a result [x] of a call; [T] is the type that the
    function declares for this result, where it declares one.  A [nil]
    interface value is nil.  Any other value is never nil under an
    interface type, is nil under a pointer or function type when it is the
    [nil] of its type, and makes [IsNil] panic under a type of another
    kind. *)
Definition IsNil (T : option rtype) (x : option value) : outcome bool :=
  match x with
  | None => Done true
  | Some v =>
    match kind <$> T with
    | Some reflect.Interface | None => Done false
    | Some reflect.Ptr | Some reflect.Func =>
      Done (match v with TypedNil _ => true | _ => false end)
    | Some _ => Panic "reflect: call of reflect.Value.IsNil on a Value that cannot be nil"
    end
  end.

(** The [switch len(out)] on what the function returned; [I] is the
    interface of the final type assertion and [Out_] the result types that
    the function declares. *)
Definition interpret (I : rtype) (Out_ : list rtype) (out : list (option value))
  : outcome (option value * option value) :=
  let case_1 (tpt : option value) :=
    t ← must_iface I tpt; Done (Some t, None) in
  match out with
  | [out0; err] =>
    isNil ← IsNil (Out_ !! 1) err;
    if negb isNil then e ← must_iface error_iface err; Done (None, Some e)
    else case_1 out0
  | [out0] => case_1 out0
  | _ => Panic "expected 1 or 2 return values from transport constructor"
  end.

(** The function literal that each normaliser returns for a function [v]. *)
Definition deferred {C : Type} (I : rtype) (v : gofunc)
    (argConstructors : list (option (C -> option value)))
  : C -> user_code (option value * option value) :=
  fun ctx =>
    arguments ← lift (make_arguments argConstructors ctx);
    out ← Call v arguments;
    lift (interpret I (Out v) out).

(** ** [config/transport.go] *)

Definition TptC : Type :=
  Host -> Upgrader -> user_code (option value * option value).

Definition transportArgTypes : list (ArgType (Host * Upgrader)) := [
  {| Type' := upgraderType;
     New := fun '(h, u) => Some (upgrader_value u) |};
  {| Type' := hostType;
     New := fun '(h, u) => Some (host_value h) |};
  {| Type' := networkType;
     New := fun '(h, u) => Network h |};
  {| Type' := muxType;
     New := fun '(h, u) => Muxer u |};
  {| Type' := securityType;
     New := fun '(h, u) => Secure u |};
  {| Type' := protectorType;
     New := fun '(h, u) => Protector u |};
  {| Type' := filtersType;
     New := fun '(h, u) => Some (Filters u) |};
  {| Type' := peerIDType;
     New := fun '(h, u) => Some (PeerID (ID h)) |};
  {| Type' := privKeyType;
     New := fun '(h, u) => PrivKey (Peerstore h) (ID h) |};
  {| Type' := pubKeyType;
     New := fun '(h, u) => PubKey (Peerstore h) (ID h) |};
  {| Type' := pstoreType;
     New := fun '(h, u) => Some (pstore_value (Peerstore h)) |}
].

Definition TransportConstructor (tpt : descriptor)
  : outcome (option TptC * option value) :=
  match assert_iface transport_Transport (as_interface tpt) with
  | Some t => Done (Some (fun _ _ => mret (Some t, None)), None)
  | None =>
    t ← Type_of tpt;
    if decide (kind t ≠ reflect.Func) then
      Done (None, Some (Errorf "expected a transport constructor (function) or a transport"))
    else
      match as_function tpt with
      | None =>
        (* [t.NumOut()] is 0: the [default] of the [switch] *)
        Done (None, Some (Errorf "expected transport constructor to return a transport and, optionally, an error"))
      | Some v =>
        bad ← check_results (Out v);
        match bad with
        | Some err => Done (None, Some err)
        | None =>
          r ← resolve_arguments transportArgTypes (In v);
          match r with
          | inr err => Done (None, Some err)
          | inl argConstructors =>
            Done (Some (fun h u =>
                          deferred transport_Transport v argConstructors (h, u)), None)
          end
        end
      end
  end.

(** ** [config/security.go] *)

Definition SecC : Type := Host -> user_code (option value * option value).

Record MsSecC : Type := {
  MsSecC_SecC : SecC;
  MsSecC_ID : string;
}.

Definition securityArgTypes : list (ArgType Host) := [
  {| Type' := hostType; New := fun h => Some (host_value h) |};
  {| Type' := networkType; New := fun h => Network h |};
  {| Type' := peerIDType; New := fun h => Some (PeerID (ID h)) |};
  {| Type' := privKeyType; New := fun h => PrivKey (Peerstore h) (ID h) |};
  {| Type' := pubKeyType; New := fun h => PubKey (Peerstore h) (ID h) |};
  {| Type' := pstoreType; New := fun h => Some (pstore_value (Peerstore h)) |}
].

Definition SecurityConstructor (sec : descriptor)
  : outcome (option SecC * option value) :=
  match assert_iface security_Transport (as_interface sec) with
  | Some t => Done (Some (fun _ => mret (Some t, None)), None)
  | None =>
    t ← Type_of sec;
    if decide (kind t ≠ reflect.Func) then
      Done (None, Some (Errorf "expected a transport constructor (function) or a transport"))
    else
      match as_function sec with
      | None =>
        (* [t.NumOut()] is 0: the [default] of the [switch] *)
        Done (None, Some (Errorf "expected transport constructor to return a transport and, optionally, an error"))
      | Some v =>
        bad ← check_results (Out v);
        match bad with
        | Some err => Done (None, Some err)
        | None =>
          r ← resolve_arguments securityArgTypes (In v);
          match r with
          | inr err => Done (None, Some err)
          | inl argConstructors =>
            Done (Some (deferred security_Transport v argConstructors), None)
          end
        end
      end
  end.

(** ** The stream-muxer file: normaliser *)

Definition MuxC : Type := Host -> user_code (option value * option value).

Record MsMuxC : Type := {
  MsMuxC_MuxC : MuxC;
  MsMuxC_ID : string;
}.

Definition muxArgTypes : list (ArgType Host) := [
  {| Type' := hostType; New := fun h => Some (host_value h) |};
  {| Type' := networkType; New := fun h => Network h |};
  {| Type' := peerIDType; New := fun h => Some (PeerID (ID h)) |};
  {| Type' := pstoreType; New := fun h => Some (pstore_value (Peerstore h)) |}
].

Definition MuxerConstructor (m : descriptor)
  : outcome (option MuxC * option value) :=
  match assert_iface mux_Transport (as_interface m) with
  | Some t => Done (Some (fun _ => mret (Some t, None)), None)
  | None =>
    t ← Type_of m;
    if decide (kind t ≠ reflect.Func) then
      Done (None, Some (Errorf "expected a transport constructor (function) or a transport"))
    else
      match as_function m with
      | None =>
        (* [t.NumOut()] is 0: the [default] of the [switch] *)
        Done (None, Some (Errorf "expected transport constructor to return a transport and, optionally, an error"))
      | Some v =>
        bad ← check_results (Out v);
        match bad with
        | Some err => Done (None, Some err)
        | None =>
          r ← resolve_arguments muxArgTypes (In v);
          match r with
          | inr err => Done (None, Some err)
          | inl argConstructors =>
            Done (Some (deferred mux_Transport v argConstructors), None)
          end
        end
      end
  end.

(** ** The aggregators

    An aggregator runs the factories of its list on the caller's state and
    this development records, next to that state, which entries of the list
    had their factory called, in the order of the calls. *)
Record state : Type := State {
  user : W;
  calls : list nat;
}.

Definition M (A : Type) : Type := state -> state * outcome A.

Global Instance M_ret : MRet M := fun _ a s => (s, Done a).
Global Instance M_bind : MBind M := fun _ _ k m s =>
  match m s with
  | (s', Done a) => k a s'
  | (s', Panic msg) => (s', Panic msg)
  end.

(** The call of the factory of entry [i]. *)
Definition invoke {A : Type} (i : nat) (c : user_code A) : M A :=
  fun s =>
    let '(w, r) := c (user s) in
    ({| user := w; calls := calls s ++ [i] |}, r).

(** [AddTransport(id, tpt)] of [csms.SSMuxer] and of [msmux.Transport].
    A dispatcher is kept as the list of what was added to it, in the order
    of the additions. *)
Definition AddTransport (tpts : list (string * option value))
    (id : string) (tpt : option value) : list (string * option value) :=
  tpts ++ [(id, tpt)].

(** The protocol IDs under which a dispatcher has a component. *)
Definition keys (tpts : list (string * option value)) : gset string :=
  list_to_set tpts.*1.

Definition dispatcher_keys (d : value) : gset string :=
  match d with
  | SSMuxer tpts | MsmuxTransport tpts => keys tpts
  | _ => ∅
  end.

(** *** [makeTransports] *)

(** The loop [for i, tC := range tpts] from index [i] on. *)
Fixpoint makeTransports_loop (h : Host) (u : Upgrader) (i : nat)
    (tpts : list TptC) (transports : list (option value))
  : M (option (list (option value)) * option value) :=
  match tpts with
  | [] => mret (Some transports, None)
  | tC :: rest =>
    '(t, err) ← invoke i (tC h u);
    match err with
    | Some e => mret (None, Some e)
    | None => makeTransports_loop h u (S i) rest (<[i := t]> transports)
    end
  end.

Definition makeTransports (h : Host) (u : Upgrader) (tpts : list TptC)
  : M (option (list (option value)) * option value) :=
  if decide (length tpts > 0) then
    let transports := replicate (length tpts) None in
    makeTransports_loop h u 0 tpts transports
  else
    mret (Some [Some (TcpTransport (upgrader_value u));
                Some (WsTransport (upgrader_value u))], None).

(** *** [makeInsecureTransport] and [makeSecurityTransport] *)

Definition makeInsecureTransport (id : string) : value :=
  let secMuxer := [] in
  SSMuxer (AddTransport secMuxer insecure_ID (Some (InsecureTransport id))).

(** The first loop of [makeSecurityTransport] and of [makeMuxer]: it looks
    every ID up in [transportSet] and never stores one. *)
Fixpoint check_duplicates (what : string) (transportSet : gset string)
    (IDs : list string) : option value :=
  match IDs with
  | [] => None
  | id :: rest =>
    if decide (id ∈ transportSet) then Some (Errorf (what ++ id))
    else check_duplicates what transportSet rest
  end.

(** The second loop of [makeSecurityTransport], from entry [i] on. *)
Fixpoint makeSecurityTransport_loop (h : Host) (i : nat) (tpts : list MsSecC)
    (secMuxer : list (string * option value))
  : M (option value * option value) :=
  match tpts with
  | [] => mret (Some (SSMuxer secMuxer), None)
  | tptC :: rest =>
    '(tpt, err) ← invoke i (MsSecC_SecC tptC h);
    match err with
    | Some e => mret (None, Some e)
    | None =>
      if is_type insecure_Transport_ptr tpt then
        mret (None, Some (Errorf "cannot construct libp2p with an insecure transport, set the Insecure config option instead"))
      else
        makeSecurityTransport_loop h (S i) rest
          (AddTransport secMuxer (MsSecC_ID tptC) tpt)
    end
  end.

Definition makeSecurityTransport (h : Host) (tpts : list MsSecC)
  : M (option value * option value) :=
  let secMuxer := [] in
  if decide (length tpts > 0) then
    let transportSet : gset string := ∅ in
    match check_duplicates "duplicate security transport: " transportSet
                           (MsSecC_ID <$> tpts) with
    | Some err => mret (None, Some err)
    | None => makeSecurityTransport_loop h 0 tpts secMuxer
    end
  else
    let id := ID h in
    let sk := PrivKey (Peerstore h) id in
    mret (Some (SSMuxer (AddTransport secMuxer secio_ID
                           (Some (SecioTransport id sk)))), None).

(** *** [makeMuxer] *)

(** The second loop of [makeMuxer], from entry [i] on. *)
Fixpoint makeMuxer_loop (h : Host) (i : nat) (tpts : list MsMuxC)
    (muxMuxer : list (string * option value))
  : M (option value * option value) :=
  match tpts with
  | [] => mret (Some (MsmuxTransport muxMuxer), None)
  | tptC :: rest =>
    '(tpt, err) ← invoke i (MsMuxC_MuxC tptC h);
    match err with
    | Some e => mret (None, Some e)
    | None =>
      makeMuxer_loop h (S i) rest (AddTransport muxMuxer (MsMuxC_ID tptC) tpt)
    end
  end.

Definition makeMuxer (h : Host) (tpts : list MsMuxC)
  : M (option value * option value) :=
  let muxMuxer := [] in
  if decide (length tpts = 0) then
    let transportSet : gset string := ∅ in
    match check_duplicates "duplicate muxer transport: " transportSet
                           (MsMuxC_ID <$> tpts) with
    | Some err => mret (None, Some err)
    | None => makeMuxer_loop h 0 tpts muxMuxer
    end
  else
    let muxMuxer := AddTransport muxMuxer "/yamux/1.0.0"
                                 (Some yamux_DefaultTransport) in
    let muxMuxer := AddTransport muxMuxer "/mplex/6.3.0"
                                 (Some mplex_DefaultTransport) in
    mret (Some (MsmuxTransport muxMuxer), None).

End Config.

(** * Runs of a list of factories

    The words of the specification about a list of factories, as relations:
    [run f] is the call of the factory of entry [f], and [accept t] tells
    whether the aggregator keeps going after a factory returned the
    component [t] without an error. *)

Section Runs.
Context {W F : Type}.
Variable run : F -> @user_code W (option value * option value).
Variable accept : option value -> bool.

(** [all_succeed fs w w' ts]: from the state [w], the factories of [fs] are
    called one after the other in the order of the list, each once; each
    returns, without an error, a component that the aggregator accepts;
    [ts] lists these components in the same order and [w'] is the state
    after the last call. *)
Inductive all_succeed : list F -> W -> W -> list (option value) -> Prop :=
  | all_succeed_nil w :
      all_succeed [] w w []
  | all_succeed_cons f fs w w1 w2 t ts :
      run f w = (w1, Done (t, None)) ->
      accept t = true ->
      all_succeed fs w1 w2 ts ->
      all_succeed (f :: fs) w w2 (t :: ts).

(** [reaches fs w w' n r]: from the state [w], the factories before entry
    [n] are called in order, each once, and each returns, without an error,
    a component that the aggregator accepts; the factory of entry [n] is
    called next and returns the pair [r]; [w'] is the state after that
    call. *)
Inductive reaches : list F -> W -> W -> nat -> option value * option value -> Prop :=
  | reaches_here f fs w w' r :
      run f w = (w', Done r) ->
      reaches (f :: fs) w w' 0 r
  | reaches_later f fs w w1 w' t n r :
      run f w = (w1, Done (t, None)) ->
      accept t = true ->
      reaches fs w1 w' n r ->
      reaches (f :: fs) w w' (S n) r.

(** A factory is stateless when what it returns does not depend on the
    state it is called in. *)
Definition stateless (f : F) : Prop :=
  forall w w' : W, (run f w).2 = (run f w').2.

End Runs.

(** What each aggregator accepts from a factory that returned no error. *)
Definition any_component : option value -> bool := fun _ => true.
Definition not_insecure : option value -> bool :=
  fun t => negb (is_type insecure_Transport_ptr t).

(** * Concrete inputs

    A host, an upgrader and a few factories, used to run the definitions
    above.  The caller's state is a counter that every factory increments,
    so that it counts the calls. *)

Definition host0 : Host := {|
  host_value :=
    Object (RType "*basichost.BasicHost" "" reflect.Ptr
                  ["Addrs"; "Close"; "Connect"; "ID"; "Mux"; "Network";
                   "NewStream"; "Peerstore"; "SetStreamHandler"]) "host";
  ID := "QmSelf";
  Network := None;
  Peerstore := {|
    pstore_value := Object (RType "*pstore.peerstore" "" reflect.Ptr []) "peers";
    PrivKey := fun id =>
      if decide (id = "QmSelf")
      then Some (Object (RType "*crypto.Ed25519PrivateKey" "" reflect.Ptr
                               ["Bytes"; "Equals"; "GetPublic"; "Sign"]) "sk")
      else None;
    PubKey := fun _ => None;
  |};
|}.

Definition upgrader0 : Upgrader := {|
  Protector := None;
  Secure := None;
  Muxer := None;
  Filters := TypedNil filter_Filters_ptr;
|}.

(** A factory that counts its call and returns the component [v]. *)
Definition counting (v : value) : Host -> @user_code nat (option value * option value) :=
  fun _ n => (S n, Done (Some v, None)).

(** A factory that counts its call and returns the error [e]. *)
Definition failing (e : value) : Host -> @user_code nat (option value * option value) :=
  fun _ n => (S n, Done (None, Some e)).

Definition secure_a : value := Object secio_Transport_ptr "a".
Definition secure_b : value := Object secio_Transport_ptr "b".
Definition muxer_a : value := Object yamux_Transport_ptr "a".
Definition muxer_b : value := Object yamux_Transport_ptr "b".
Definition transport_a : value := Object tcp_TcpTransport_ptr "a".
Definition transport_b : value := Object ws_WebsocketTransport_ptr "b".

(** Two parameter types: [interface{}], which every type implements, and
    [io.Reader], which no type of the tables implements. *)
Definition empty_interface : rtype :=
  RType "interface {}" "" reflect.Interface [].
Definition io_Reader : rtype :=
  RType "io.Reader" "Reader" reflect.Interface ["Read"].

(** [func(u *tptu.Upgrader) *tcp.TcpTransport], in the way of
    [tcp.NewTCPTransport]. *)
Definition NewTCPTransport : @gofunc nat := {|
  In := [tptu_Upgrader_ptr];
  Out := [tcp_TcpTransport_ptr];
  body := fun args n =>
    (S n, Done [TcpTransport <$> head args]);
|}.

(** [func(h host.Host) (transport.Transport, error)]. *)
Definition NewTransportOrError : @gofunc nat := {|
  In := [host_Host];
  Out := [transport_Transport; error_iface];
  body := fun args n => (S n, Done [Some transport_a; None]);
|}.


(** [func() security.Transport] and [func() mux.Transport]. *)
Definition NewSecure : @gofunc nat := {|
  In := [];
  Out := [security_Transport];
  body := fun args n => (S n, Done [Some secure_a]);
|}.
Definition NewMuxer : @gofunc nat := {|
  In := [];
  Out := [mux_Transport];
  body := fun args n => (S n, Done [Some muxer_a]);
|}.

(** A factory that counts its call and panics. *)
Definition panicking (msg : string) : Host -> @user_code nat (option value * option value) :=
  fun _ n => (S n, Panic msg).

(** [func(pk crypto.PubKey) security.Transport]. *)
Definition NewSecureWithKey : @gofunc nat := {|
  In := [crypto_PubKey];
  Out := [security_Transport];
  body := fun args n => (S n, Done [Some secure_a]);
|}.

(** [func() transport.Transport] that returns [nil]. *)
Definition NewNothing : @gofunc nat := {|
  In := [];
  Out := [transport_Transport];
  body := fun args n => (S n, Done [None]);
|}.

(** [func(a interface{}, b interface{}) transport.Transport]. *)
Definition NewFromTwo : @gofunc nat := {|
  In := [empty_interface; empty_interface];
  Out := [transport_Transport];
  body := fun args n => (S n, Done [Some transport_a]);
|}.




(** A named function type with the methods of a stream muxer, in the way
    of [http.HandlerFunc], and a function of that type. *)
Definition MuxerFunc : rtype :=
  RType "config.MuxerFunc" "MuxerFunc" reflect.Func ["NewConn"].
Definition muxer_func : value := Object MuxerFunc "f".

(** A named function type without methods, and a function of that type
    given as a plain value. *)
Definition Callback : rtype :=
  RType "config.Callback" "Callback" reflect.Func [].
Definition callback : value := Object Callback "g".

(** A factory that returns the component [v] on its first call and an
    error on every later call. *)
Definition once_only (v : value) : Host -> @user_code nat (option value * option value) :=
  fun _ n =>
    (S n, if decide (n = 0) then Done (Some v, None)
          else Done (None, Some (Errorf "already built"))).

(** A factory that returns [v1] when the counter is even and [v2] when it
    is odd. *)
Definition alternating (v1 v2 : value) : Host -> @user_code nat (option value * option value) :=
  fun _ n => (S n, Done (Some (if Nat.even n then v1 else v2), None)).

(** [interface{ AddrBlocked(ma.Multiaddr) bool }], which [*filter.Filters]
    implements and [*tptu.Upgrader] does not. *)
Definition addr_blocker : rtype :=
  RType "interface { AddrBlocked(ma.Multiaddr) bool }" "" reflect.Interface
        ["AddrBlocked"].

(** * Properties *)

Local Open Scope nat_scope.
Local Open Scope list_scope.

Section Properties.
Context {W : Type}.
Implicit Types (s : @state W) (h : Host) (u : Upgrader).

(** ** The table of [config/reflect_types.go] *)

(** Three variables of the table hold a type; the others are [nil]. *)
Lemma reflect_types_eq :
  upgraderType = Some tptu_Upgrader_ptr
  /\ filtersType = Some filter_Filters_ptr
  /\ peerIDType = Some peer_ID
  /\ errorType = None /\ transportType = None /\ hostType = None
  /\ networkType = None /\ muxType = None /\ securityType = None
  /\ protectorType = None /\ privKeyType = None /\ pubKeyType = None
  /\ pstoreType = None.
Proof. by repeat split. Qed.

(** ** The calls of the factories *)

Lemma invoke_bind {A B : Type} (i : nat) (c : user_code A) (k : A -> M B) s :
  (invoke i c ≫= k) s =
  match c (user s) with
  | (w, Done a) => k a {| user := w; calls := calls s ++ [i] |}
  | (w, Panic msg) => ({| user := w; calls := calls s ++ [i] |}, Panic msg)
  end.
Proof.
  unfold mbind, M_bind, invoke. by destruct (c (user s)) as [w [a|msg]].
Qed.

(** ** The duplicate check *)

(** The set that the duplicate check consults is empty and stays empty, so
    the check lets every list through. *)
Lemma check_duplicates_empty (what : string) (IDs : list string) :
  check_duplicates what ∅ IDs = None.
Proof.
  induction IDs as [|id rest IH]; simpl; [done|].
  destruct (decide (id ∈ (∅ : gset string))) as [Hin|_]; [|done].
  by apply not_elem_of_empty in Hin.
Qed.

(** ** What [makeMuxer] does on each side of its test *)

Lemma makeMuxer_empty h s :
  makeMuxer h [] s = (s, Done (Some (MsmuxTransport []), None)).
Proof. reflexivity. Qed.

Lemma makeMuxer_nonempty h (tpts : list (@MsMuxC W)) s :
  tpts ≠ [] ->
  makeMuxer h tpts s =
  (s, Done (Some (MsmuxTransport
                    [("/yamux/1.0.0", Some yamux_DefaultTransport);
                     ("/mplex/6.3.0", Some mplex_DefaultTransport)]), None)).
Proof.
  intros Hne. unfold makeMuxer.
  destruct (decide (length tpts = 0)) as [Hlen|_]; [|done].
  by destruct tpts.
Qed.

(** ** The defaults of the other two aggregators *)

Lemma makeTransports_default h u s :
  makeTransports h u [] s =
  (s, Done (Some [Some (TcpTransport (upgrader_value u));
                  Some (WsTransport (upgrader_value u))], None)).
Proof. reflexivity. Qed.

Lemma makeSecurityTransport_default h s :
  makeSecurityTransport h [] s =
  (s, Done (Some (SSMuxer [(secio_ID,
                            Some (SecioTransport (ID h)
                                    (PrivKey (Peerstore h) (ID h))))]), None)).
Proof. reflexivity. Qed.

(** ** The loop of [makeTransports] *)

Lemma makeTransports_loop_all h u (tpts : list (@TptC W)) :
  forall i transports s w' ts,
    i + length tpts ≤ length transports ->
    all_succeed (fun tC : TptC => tC h u) any_component tpts (user s) w' ts ->
    makeTransports_loop h u i tpts transports s =
    ({| user := w'; calls := calls s ++ seq i (length tpts) |},
     Done (Some (take i transports ++ ts ++ drop (i + length tpts) transports),
           None)).
Proof.
  induction tpts as [|tC rest IH]; intros i transports s w' ts Hlen Hrun;
    inversion Hrun as [|? ? ? w1 ? t ts0 Hcall _ Hrest]; subst; simpl.
  - rewrite app_nil_r, Nat.add_0_r, take_drop. by destruct s.
  - rewrite invoke_bind. rewrite Hcall. simpl.
    simpl in Hlen.
    rewrite (IH (S i) _ _ w' ts0); simpl.
    + rewrite <- app_assoc. simpl. do 3 f_equal.
      rewrite (take_S_r _ _ t) by (apply list_lookup_insert_eq; lia).
      rewrite take_insert_ge by lia.
      rewrite drop_insert_lt by lia.
      rewrite <- app_assoc. simpl. by rewrite Nat.add_succ_r.
    + rewrite length_insert. lia.
    + done.
Qed.

Lemma makeTransports_loop_error h u (tpts : list (@TptC W)) :
  forall i transports s w' n t e,
    reaches (fun tC : TptC => tC h u) any_component tpts (user s) w' n (t, Some e) ->
    makeTransports_loop h u i tpts transports s =
    ({| user := w'; calls := calls s ++ seq i (S n) |}, Done (None, Some e)).
Proof.
  induction tpts as [|tC rest IH]; intros i transports s w' n t e Hrun;
    inversion Hrun as [? ? ? ? ? Hcall|? ? ? w1 ? t1 n0 ? Hcall _ Hrest];
    subst; simpl; rewrite invoke_bind, Hcall; simpl.
  - done.
  - rewrite (IH (S i) _ _ w' n0 t e) by done.
    simpl. by rewrite <- app_assoc.
Qed.

Lemma all_succeed_length {F : Type} (run : F -> user_code _) accept fs (w w' : W) ts :
  all_succeed run accept fs w w' ts -> length ts = length fs.
Proof. induction 1; simpl; congruence. Qed.

(** ** The loop of [makeSecurityTransport] *)

Lemma makeSecurityTransport_loop_all h (tpts : list (@MsSecC W)) :
  forall i secMuxer s w' ts,
    all_succeed (fun c => MsSecC_SecC c h) not_insecure tpts (user s) w' ts ->
    makeSecurityTransport_loop h i tpts secMuxer s =
    ({| user := w'; calls := calls s ++ seq i (length tpts) |},
     Done (Some (SSMuxer (secMuxer ++ zip (MsSecC_ID <$> tpts) ts)), None)).
Proof.
  induction tpts as [|tptC rest IH]; intros i secMuxer s w' ts Hrun;
    inversion Hrun as [|? ? ? w1 ? t ts0 Hcall Hacc Hrest]; subst; simpl.
  - rewrite !app_nil_r. by destruct s.
  - rewrite invoke_bind, Hcall. simpl.
    unfold not_insecure in Hacc. apply negb_true_iff in Hacc. rewrite Hacc.
    rewrite (IH (S i) _ _ w' ts0) by done. simpl.
    unfold AddTransport. by rewrite <- !app_assoc.
Qed.

Lemma makeSecurityTransport_loop_error h (tpts : list (@MsSecC W)) :
  forall i secMuxer s w' n t e,
    reaches (fun c => MsSecC_SecC c h) not_insecure tpts (user s) w' n (t, Some e) ->
    makeSecurityTransport_loop h i tpts secMuxer s =
    ({| user := w'; calls := calls s ++ seq i (S n) |}, Done (None, Some e)).
Proof.
  induction tpts as [|tptC rest IH]; intros i secMuxer s w' n t e Hrun;
    inversion Hrun as [? ? ? ? ? Hcall|? ? ? w1 ? t1 n0 ? Hcall Hacc Hrest];
    subst; simpl; rewrite invoke_bind, Hcall; simpl.
  - done.
  - unfold not_insecure in Hacc. apply negb_true_iff in Hacc. rewrite Hacc.
    rewrite (IH (S i) _ _ w' n0 t e) by done.
    simpl. by rewrite <- app_assoc.
Qed.

Lemma makeSecurityTransport_loop_insecure h (tpts : list (@MsSecC W)) :
  forall i secMuxer s w' n t,
    reaches (fun c => MsSecC_SecC c h) not_insecure tpts (user s) w' n (t, None) ->
    is_type insecure_Transport_ptr t = true ->
    makeSecurityTransport_loop h i tpts secMuxer s =
    ({| user := w'; calls := calls s ++ seq i (S n) |},
     Done (None, Some (Errorf "cannot construct libp2p with an insecure transport, set the Insecure config option instead"))).
Proof.
  induction tpts as [|tptC rest IH]; intros i secMuxer s w' n t Hrun Hins;
    inversion Hrun as [? ? ? ? ? Hcall|? ? ? w1 ? t1 n0 ? Hcall Hacc Hrest];
    subst; simpl; rewrite invoke_bind, Hcall; simpl.
  - by rewrite Hins.
  - unfold not_insecure in Hacc. apply negb_true_iff in Hacc. rewrite Hacc.
    rewrite (IH (S i) _ _ w' n0 t) by done.
    simpl. by rewrite <- app_assoc.
Qed.

(** On a list that is not empty, [makeSecurityTransport] is its second
    loop: the duplicate check never stops it. *)
Lemma makeSecurityTransport_nonempty h (tpts : list (@MsSecC W)) s :
  tpts ≠ [] ->
  makeSecurityTransport h tpts s = makeSecurityTransport_loop h 0 tpts [] s.
Proof.
  intros Hne. unfold makeSecurityTransport.
  destruct (decide (length tpts > 0)) as [_|Hlen].
  - by rewrite check_duplicates_empty.
  - destruct tpts; [done|]. simpl in Hlen. lia.
Qed.

Lemma makeTransports_nonempty h u (tpts : list (@TptC W)) s :
  tpts ≠ [] ->
  makeTransports h u tpts s =
  makeTransports_loop h u 0 tpts (replicate (length tpts) None) s.
Proof.
  intros Hne. unfold makeTransports.
  destruct (decide (length tpts > 0)) as [_|Hlen]; [done|].
  destruct tpts; [done|]. simpl in Hlen. lia.
Qed.


(** C8.  When the secure-channel aggregator calls the factories in order
    and one of them returns, without an error, a component whose dynamic
    type is [*insecure.Transport], the aggregator stops there and returns
    the error that forbids the insecure transport and no dispatcher at all,
    so no dispatcher with that entry reaches the caller. *)
Theorem insecure_transport_is_forbidden h (secs : list (@MsSecC W)) s w' n t :
  reaches (fun c => MsSecC_SecC c h) not_insecure secs (user s) w' n (t, None) ->
  is_type insecure_Transport_ptr t = true ->
  makeSecurityTransport h secs s =
  ({| user := w'; calls := calls s ++ seq 0 (S n) |},
   Done (None, Some (Errorf "cannot construct libp2p with an insecure transport, set the Insecure config option instead"))).
Proof.
  intros Hrun Hins.
  rewrite makeSecurityTransport_nonempty by (by inversion Hrun).
  by apply makeSecurityTransport_loop_insecure with t.
Qed.

(** Whatever the factories do, a dispatcher that [makeSecurityTransport]
    returns holds no component of type [*insecure.Transport]. *)
Lemma makeSecurityTransport_loop_secure h (tpts : list (@MsSecC W)) :
  forall i secMuxer s s' d e,
    makeSecurityTransport_loop h i tpts secMuxer s = (s', Done (Some d, e)) ->
    Forall (fun p => is_type insecure_Transport_ptr p.2 = false) secMuxer ->
    exists entries,
      d = SSMuxer entries /\
      Forall (fun p => is_type insecure_Transport_ptr p.2 = false) entries.
Proof.
  induction tpts as [|tptC rest IH]; intros i secMuxer s s' d e Hloop Hinv;
    simpl in Hloop.
  - injection Hloop as _ <- _. by exists secMuxer.
  - rewrite invoke_bind in Hloop.
    destruct (MsSecC_SecC tptC h (user s)) as [w [[tpt [err|]]|msg]];
      simpl in Hloop; try discriminate.
    destruct (is_type insecure_Transport_ptr tpt) eqn:Hins; [discriminate|].
    apply IH in Hloop; [done|].
    unfold AddTransport. apply Forall_app. split; [done|].
    by apply Forall_singleton.
Qed.

Lemma makeSecurityTransport_secure h (secs : list (@MsSecC W)) s s' d e :
  makeSecurityTransport h secs s = (s', Done (Some d, e)) ->
  exists entries,
    d = SSMuxer entries /\
    Forall (fun p => is_type insecure_Transport_ptr p.2 = false) entries.
Proof.
  destruct secs as [|c rest].
  - rewrite makeSecurityTransport_default. intros [= _ <- _].
    eexists. split; [done|]. by apply Forall_singleton.
  - rewrite makeSecurityTransport_nonempty by done.
    intros Hloop. by apply makeSecurityTransport_loop_secure in Hloop.
Qed.

(** C10.  The check of [makeSecurityTransport] looks at the dynamic type
    of the component and at nothing else: a component of any other type,
    whatever it holds, is installed under its ID.  The value that
    [makeInsecureTransport] builds is one of them: a [*csms.SSMuxer] with
    the insecure transport inside. *)
Theorem wrapped_insecure_transport_is_installed h (f : @SecC W) (id : string)
    s w' v :
  f h (user s) = (w', Done (Some v, None)) ->
  dynType v ≠ insecure_Transport_ptr ->
  makeSecurityTransport h [{| MsSecC_SecC := f; MsSecC_ID := id |}] s =
  ({| user := w'; calls := calls s ++ [0] |},
   Done (Some (SSMuxer [(id, Some v)]), None)).
Proof.
  intros Hcall Htype.
  rewrite makeSecurityTransport_nonempty by done. simpl.
  rewrite invoke_bind. simpl. rewrite Hcall. simpl.
  by rewrite bool_decide_eq_false_2.
Qed.

(** ** Running an aggregator twice *)

Lemma makeTransports_loop_stateless h u (tpts : list (@TptC W)) :
  Forall (stateless (fun tC : TptC => tC h u)) tpts ->
  forall i transports s1 s2,
    (makeTransports_loop h u i tpts transports s1).2 =
    (makeTransports_loop h u i tpts transports s2).2.
Proof.
  induction 1 as [|tC rest Hpure _ IH]; intros i transports s1 s2; simpl;
    [done|].
  rewrite !invoke_bind. specialize (Hpure (user s1) (user s2)).
  destruct (tC h u (user s1)) as [w1 r1], (tC h u (user s2)) as [w2 r2].
  simpl in Hpure. subst r2.
  destruct r1 as [[t [e|]]|msg]; simpl; [done| |done]. apply IH.
Qed.

Lemma makeSecurityTransport_loop_stateless h (tpts : list (@MsSecC W)) :
  Forall (stateless (fun c => MsSecC_SecC c h)) tpts ->
  forall i secMuxer s1 s2,
    (makeSecurityTransport_loop h i tpts secMuxer s1).2 =
    (makeSecurityTransport_loop h i tpts secMuxer s2).2.
Proof.
  induction 1 as [|c rest Hpure _ IH]; intros i secMuxer s1 s2; simpl;
    [done|].
  rewrite !invoke_bind. specialize (Hpure (user s1) (user s2)).
  destruct (MsSecC_SecC c h (user s1)) as [w1 r1],
           (MsSecC_SecC c h (user s2)) as [w2 r2].
  simpl in Hpure. subst r2.
  destruct r1 as [[t [e|]]|msg]; simpl; [done| |done].
  destruct (is_type insecure_Transport_ptr t); [done|]. apply IH.
Qed.

(** The key set of a dispatcher that [makeSecurityTransport] returns is
    fixed by the IDs of the list, whatever the factories and the host
    are. *)
Lemma makeSecurityTransport_loop_keys h (tpts : list (@MsSecC W)) :
  forall i secMuxer s s' d e,
    makeSecurityTransport_loop h i tpts secMuxer s = (s', Done (Some d, e)) ->
    dispatcher_keys d = keys secMuxer ∪ list_to_set (MsSecC_ID <$> tpts).
Proof.
  induction tpts as [|tptC rest IH]; intros i secMuxer s s' d e Hloop;
    simpl in Hloop.
  - injection Hloop as _ <- _. simpl. by rewrite (right_id_L ∅ (∪)).
  - rewrite invoke_bind in Hloop.
    destruct (MsSecC_SecC tptC h (user s)) as [w [[tpt [err|]]|msg]];
      simpl in Hloop; try discriminate.
    destruct (is_type insecure_Transport_ptr tpt); [discriminate|].
    apply IH in Hloop. rewrite Hloop.
    unfold AddTransport, keys. rewrite fmap_app, list_to_set_app_L.
    rewrite fmap_cons, list_to_set_cons. simpl.
    by rewrite (right_id_L ∅ (∪)), (assoc_L (∪)).
Qed.

Lemma makeSecurityTransport_keys h (secs : list (@MsSecC W)) s s' d e :
  makeSecurityTransport h secs s = (s', Done (Some d, e)) ->
  dispatcher_keys d =
  match secs with
  | [] => {[ secio_ID ]}
  | _ => list_to_set (MsSecC_ID <$> secs)
  end.
Proof.
  destruct secs as [|c rest].
  - rewrite makeSecurityTransport_default. intros [= _ <- _].
    unfold dispatcher_keys, keys. simpl. set_solver.
  - rewrite makeSecurityTransport_nonempty by done. intros Hloop.
    apply makeSecurityTransport_loop_keys in Hloop. rewrite Hloop.
    unfold keys. simpl. by rewrite (left_id_L ∅ (∪)).
Qed.

(** The transport list that [makeTransports] returns is as long as the
    list of factories, or holds the two defaults. *)
Lemma makeTransports_loop_length h u (tpts : list (@TptC W)) :
  forall i transports s s' ts e,
    makeTransports_loop h u i tpts transports s = (s', Done (Some ts, e)) ->
    length ts = length transports.
Proof.
  induction tpts as [|tC rest IH]; intros i transports s s' ts e Hloop;
    simpl in Hloop.
  - by injection Hloop as _ <- _.
  - rewrite invoke_bind in Hloop.
    destruct (tC h u (user s)) as [w [[t [err|]]|msg]];
      simpl in Hloop; try discriminate.
    apply IH in Hloop. by rewrite length_insert in Hloop.
Qed.

Lemma makeTransports_length h u (tpts : list (@TptC W)) s s' ts e :
  makeTransports h u tpts s = (s', Done (Some ts, e)) ->
  length ts = match tpts with [] => 2 | _ => length tpts end.
Proof.
  destruct tpts as [|tC rest].
  - rewrite makeTransports_default. by intros [= _ <- _].
  - rewrite makeTransports_nonempty by done. intros Hloop.
    apply makeTransports_loop_length in Hloop.
    by rewrite length_replicate in Hloop.
Qed.

Lemma makeMuxer_keys h (muxs : list (@MsMuxC W)) s s' d e :
  makeMuxer h muxs s = (s', Done (Some d, e)) ->
  dispatcher_keys d =
  match muxs with
  | [] => ∅
  | _ => {[ "/yamux/1.0.0"; "/mplex/6.3.0" ]}
  end.
Proof.
  destruct muxs as [|m rest].
  - rewrite makeMuxer_empty. by intros [= _ <- _].
  - rewrite makeMuxer_nonempty by done. intros [= _ <- _].
    unfold dispatcher_keys, keys. simpl. set_solver.
Qed.

(** C9 (amended).  Resolving the same list twice gives equivalent results
    when the factories are stateless, and less when they are not.  With
    factories that are stateless, a second run on the same host, in
    whatever state the first run or anything else left behind, has the
    outcome of the first: the same error, or the same transports in the
    same order, or a dispatcher with the same entries.  And with any
    factories and any two hosts, two runs that both deliver have
    dispatchers with the same protocol IDs and transport lists of the same
    length: these are fixed by the list. *)
Theorem resolving_twice_gives_the_same h u (tpts : list (@TptC W))
    (secs : list (@MsSecC W)) (muxs : list (@MsMuxC W)) s1 s2 :
  (Forall (stateless (fun tC : TptC => tC h u)) tpts ->
   Forall (stateless (fun c => MsSecC_SecC c h)) secs ->
   (makeTransports h u tpts s1).2 = (makeTransports h u tpts s2).2
   /\ (makeSecurityTransport h secs s1).2 = (makeSecurityTransport h secs s2).2
   /\ (makeMuxer h muxs s1).2 = (makeMuxer h muxs s2).2)
  /\ (forall h' u' s1' s2' ts1 ts2 e1 e2,
        makeTransports h u tpts s1 = (s1', Done (Some ts1, e1)) ->
        makeTransports h' u' tpts s2 = (s2', Done (Some ts2, e2)) ->
        length ts1 = length ts2)
  /\ (forall h' s1' s2' d1 d2 e1 e2,
        makeSecurityTransport h secs s1 = (s1', Done (Some d1, e1)) ->
        makeSecurityTransport h' secs s2 = (s2', Done (Some d2, e2)) ->
        dispatcher_keys d1 = dispatcher_keys d2)
  /\ (forall h' s1' s2' d1 d2 e1 e2,
        makeMuxer h muxs s1 = (s1', Done (Some d1, e1)) ->
        makeMuxer h' muxs s2 = (s2', Done (Some d2, e2)) ->
        dispatcher_keys d1 = dispatcher_keys d2).
Proof.
  split; [|split; [|split]].
  - intros Htpts Hsecs. repeat split.
    + unfold makeTransports. destruct (decide (length tpts > 0)); [|done].
      by apply makeTransports_loop_stateless.
    + unfold makeSecurityTransport.
      destruct (decide (length secs > 0)); [|done].
      rewrite check_duplicates_empty.
      by apply makeSecurityTransport_loop_stateless.
    + destruct muxs as [|m rest]; [done|].
      by rewrite !makeMuxer_nonempty.
  - intros h' u' s1' s2' ts1 ts2 e1 e2 Hrun1 Hrun2.
    apply makeTransports_length in Hrun1, Hrun2. congruence.
  - intros h' s1' s2' d1 d2 e1 e2 Hrun1 Hrun2.
    apply makeSecurityTransport_keys in Hrun1, Hrun2. congruence.
  - intros h' s1' s2' d1 d2 e1 e2 Hrun1 Hrun2.
    apply makeMuxer_keys in Hrun1, Hrun2. congruence.
Qed.

(** ** A descriptor that is already a component *)

(** C7.  For a value that implements the interface of the component kind,
    each normaliser returns, with no error and no panic, a function that
    returns that value and no error on every host and in every state, and
    leaves the state as it found it: no code of the caller runs. *)
Theorem constructed_component_is_returned (t : value) :
  (implements (dynType t) transport_Transport = true ->
   exists d : @TptC W,
     TransportConstructor (DValue t) = Done (Some d, None) /\
     forall h u w, d h u w = (w, Done (Some t, None)))
  /\ (implements (dynType t) security_Transport = true ->
   exists d : @SecC W,
     SecurityConstructor (DValue t) = Done (Some d, None) /\
     forall h w, d h w = (w, Done (Some t, None)))
  /\ (implements (dynType t) mux_Transport = true ->
   exists d : @MuxC W,
     MuxerConstructor (DValue t) = Done (Some d, None) /\
     forall h w, d h w = (w, Done (Some t, None))).
Proof.
  repeat split; intros Himpl; eexists; split;
    try (unfold TransportConstructor, SecurityConstructor, MuxerConstructor;
         simpl; rewrite Himpl; reflexivity);
    done.
Qed.

(** ** The function that a normaliser returns for a function *)

Lemma make_arguments_filled {C : Type} (news : list (C -> option value)) ctx :
  make_arguments (Some <$> news) ctx = Done ((fun new => new ctx) <$> news).
Proof.
  unfold make_arguments.
  induction news as [|new rest IH]; [done|].
  rewrite fmap_cons. cbn [mapM]. by rewrite IH.
Qed.

(** An argument slot that was left [nil] makes the call panic before the
    function of the caller is reached. *)
Lemma make_arguments_nil_slot {C : Type}
    (before : list (C -> option value)) after ctx :
  make_arguments ((Some <$> before) ++ None :: after) ctx =
  Panic "invalid memory address or nil pointer dereference".
Proof.
  unfold make_arguments.
  induction before as [|new rest IH]; [done|].
  rewrite fmap_cons. cbn [mapM app]. by rewrite IH.
Qed.

(** A function that returns [nil] for its component, with no error, makes
    the final type assertion panic. *)
Lemma interpret_nil_component (I : rtype) (Out_ : list rtype) :
  interpret I Out_ [None] =
    Panic ("interface conversion: interface is not " ++ str I)
  /\ interpret I Out_ [None; None] =
     Panic ("interface conversion: interface is not " ++ str I).
Proof. done. Qed.

Lemma mapM_id_Some (args : list value) : mapM id (Some <$> args) = Some args.
Proof.
  induction args as [|a rest IH]; [done|].
  rewrite fmap_cons. cbn [mapM]. by rewrite IH.
Qed.

Lemma deferred_calls {C : Type} (I : rtype) (v : @gofunc W)
    (news : list (C -> option value)) ctx args w :
  (fun new => new ctx) <$> news = Some <$> args ->
  Forall2 (fun a T => assignable (dynType a) T = true) args (In v) ->
  deferred I v (Some <$> news) ctx w =
  match body v args w with
  | (w', Done out) => (w', interpret I (Out v) out)
  | (w', Panic msg) => (w', Panic msg)
  end.
Proof.
  intros Hargs Htypes. unfold deferred, lift, mbind, user_code_bind.
  rewrite make_arguments_filled, Hargs. unfold Call.
  rewrite decide_True
    by (rewrite length_fmap; by apply Forall2_length in Htypes).
  rewrite mapM_id_Some, decide_True by done.
  by destruct (body v args w) as [w' [out|msg]].
Qed.


(** ** The check of the result types *)

(** With [errorType] and [transportType] both [nil], the [switch] on the
    number of results has no way out that accepts the function. *)
Lemma check_results_eq (out : list rtype) :
  check_results out =
  match out with
  | [_] => Panic "reflect: nil type passed to Type.Implements"
  | [_; _] =>
    Done (Some (Errorf "expected (optional) second return value from transport constructor to be an error"))
  | _ =>
    Done (Some (Errorf "expected transport constructor to return a transport and, optionally, an error"))
  end.
Proof. by destruct out as [|out0 [|out1 [|out2 rest]]]. Qed.

(** C5 (what the code does).  No normaliser accepts a function, whatever
    its result types: for one result the check of the first result panics,
    for two results the second is never taken for an error, and every
    other number of results is refused.  ([DFunc v] is a function of an
    unnamed function type, as function literals and declared functions
    are; the checks are the same for a function of a named function type
    that fails the type assertion.) *)
Theorem no_function_is_accepted (v : @gofunc W) :
  (forall d e, TransportConstructor (DFunc v) ≠ Done (Some d, e))
  /\ (forall d e, SecurityConstructor (DFunc v) ≠ Done (Some d, e))
  /\ (forall d e, MuxerConstructor (DFunc v) ≠ Done (Some d, e)).
Proof.
  repeat split; intros d e;
    unfold TransportConstructor, SecurityConstructor, MuxerConstructor;
    simpl; rewrite check_results_eq;
    by destruct (Out v) as [|out0 [|out1 [|out2 rest]]].
Qed.

(** ** The resolution of the parameters *)

(** Once the first parameter is matched, the loop is left: the slots of all
    later parameters stay [nil] and their types are not looked at. *)
Lemma resolve_arguments_break {C : Type} (argTypes : list (ArgType C))
    argType rest new :
  first_match argTypes argType = Done (Some new) ->
  resolve_arguments argTypes (argType :: rest) =
  Done (inl (Some new :: replicate (length rest) None)).
Proof. intros Hfound. unfold resolve_arguments. simpl. by rewrite Hfound. Qed.

Lemma first_match_transport (argType : rtype) :
  first_match transportArgTypes argType ≠ Done None.
Proof.
  simpl.
  destruct (decide (kind argType = reflect.Interface)); [|done].
  by destruct (implements tptu_Upgrader_ptr argType).
Qed.

Lemma resolve_arguments_no_error {C : Type} (argTypes : list (ArgType C)) :
  (forall argType, first_match argTypes argType ≠ Done None) ->
  forall In_ e, resolve_arguments argTypes In_ ≠ Done (inr e).
Proof.
  intros Hfirst In_ e. unfold resolve_arguments.
  destruct In_ as [|argType rest]; simpl; [done|].
  specialize (Hfirst argType).
  by destruct (first_match argTypes argType) as [[new|]|msg].
Qed.

Lemma first_match_security (argType : rtype) :
  first_match securityArgTypes argType =
  Panic "invalid memory address or nil pointer dereference".
Proof. reflexivity. Qed.

Lemma first_match_mux (argType : rtype) :
  first_match muxArgTypes argType =
  Panic "invalid memory address or nil pointer dereference".
Proof. reflexivity. Qed.

(** C4 (what the code does).  The resolution of the parameters stops after
    the first parameter.  For [func(interface{}, interface{})] and for
    [func(interface{}, io.Reader)] it returns no error and two slots, the
    first with the extraction function of the upgrader and the second
    [nil].  It never returns the error that names a parameter, for any list
    of parameter types.  And a function such as [tcp.NewTCPTransport] does
    not get as far as the resolution: [TransportConstructor] panics on
    it. *)
Theorem resolution_stops_after_first_parameter :
  resolve_arguments transportArgTypes [empty_interface; empty_interface] =
    Done (inl [Some (fun '(h, u) => Some (upgrader_value u)); None])
  /\ resolve_arguments transportArgTypes [empty_interface; io_Reader] =
    Done (inl [Some (fun '(h, u) => Some (upgrader_value u)); None])
  /\ (forall (In_ : list rtype) (e : value),
        resolve_arguments transportArgTypes In_ ≠ Done (inr e)
        /\ resolve_arguments securityArgTypes In_ ≠ Done (inr e)
        /\ resolve_arguments muxArgTypes In_ ≠ Done (inr e))
  /\ TransportConstructor (DFunc NewTCPTransport) =
    Panic "reflect: nil type passed to Type.Implements".
Proof.
  split; [done|]. split; [done|]. split; [|done].
  intros In_ e. repeat split; apply resolve_arguments_no_error.
  - apply first_match_transport.
  - intros argType. by rewrite first_match_security.
  - intros argType. by rewrite first_match_mux.
Qed.

(** ** What each aggregator installs for an empty list *)

(** C2 (what the code does).  On an empty list the transport aggregator
    returns the TCP transport and then the WebSocket transport, both on the
    given upgrader, and the secure-channel aggregator returns a dispatcher
    with the one entry [secio.ID], bound to the ID and the private key of
    the host.  The stream-muxer aggregator returns a dispatcher with no
    entry: its key set is empty, not the two default IDs. *)
Theorem defaults_on_empty_list h u s :
  makeTransports h u [] s =
    (s, Done (Some [Some (TcpTransport (upgrader_value u));
                    Some (WsTransport (upgrader_value u))], None))
  /\ (exists d,
        makeSecurityTransport h [] s = (s, Done (Some d, None))
        /\ d = SSMuxer [(secio_ID,
                         Some (SecioTransport (ID h)
                                 (PrivKey (Peerstore h) (ID h))))]
        /\ dispatcher_keys d = {[ secio_ID ]})
  /\ (exists d,
        makeMuxer h [] s = (s, Done (Some d, None))
        /\ dispatcher_keys d = ∅
        /\ dispatcher_keys d ≠ {[ "/yamux/1.0.0"; "/mplex/6.3.0" ]}).
Proof.
  split; [done|]. split.
  - eexists. split; [apply makeSecurityTransport_default|].
    split; [done|]. unfold dispatcher_keys, keys. simpl. set_solver.
  - eexists. split; [apply makeMuxer_empty|].
    split; [done|]. unfold dispatcher_keys, keys. simpl. set_solver.
Qed.

End Properties.

(** * The definitions at work on the concrete inputs *)

(** C1 (what the code does).  Two entries with the same protocol ID do not
    stop either aggregator.  The secure-channel aggregator calls both
    factories (the counter ends at 2) and returns a dispatcher that was
    given both components under the one ID; the stream-muxer aggregator
    calls none and returns its two defaults.  Neither returns an error. *)
Theorem duplicate_ids_are_not_rejected :
  makeSecurityTransport host0
    [{| MsSecC_SecC := counting secure_a; MsSecC_ID := "/x" |};
     {| MsSecC_SecC := counting secure_b; MsSecC_ID := "/x" |}]
    {| user := 0; calls := [] |} =
  ({| user := 2; calls := [0; 1] |},
   Done (Some (SSMuxer [("/x", Some secure_a); ("/x", Some secure_b)]), None))
  /\ makeMuxer host0
    [{| MsMuxC_MuxC := counting muxer_a; MsMuxC_ID := "/x" |};
     {| MsMuxC_MuxC := counting muxer_b; MsMuxC_ID := "/x" |}]
    {| user := 0; calls := [] |} =
  ({| user := 0; calls := [] |},
   Done (Some (MsmuxTransport
                 [("/yamux/1.0.0", Some yamux_DefaultTransport);
                  ("/mplex/6.3.0", Some mplex_DefaultTransport)]), None)).
Proof.
  split.
  - rewrite makeSecurityTransport_nonempty by done. reflexivity.
  - by rewrite makeMuxer_nonempty.
Qed.

(** The normalisers on three functions of an accepted shape: the one with
    an error result is refused with the message about the second result,
    and the two with one result make the check panic. *)
Lemma normalisers_on_functions :
  TransportConstructor (DFunc NewTransportOrError) =
    Done (None, Some (Errorf "expected (optional) second return value from transport constructor to be an error"))
  /\ SecurityConstructor (DFunc NewSecure) =
    Panic "reflect: nil type passed to Type.Implements"
  /\ MuxerConstructor (DFunc NewMuxer) =
    Panic "reflect: nil type passed to Type.Implements".
Proof. by repeat split. Qed.

(** The normalisers on functions of a named function type.  One whose type
    has the method of a stream muxer passes the type assertion of
    [MuxerConstructor], whether its signature is known or not, and comes
    back as it is.  One that fails the assertion passes the test of the
    kind and goes on to the check of the results: without a result it
    gets the error of the [default] case, and with one result the check
    panics. *)
Lemma normalisers_on_named_functions :
  (exists d : @MuxC nat,
     MuxerConstructor (DNamedFunc muxer_func NewMuxer) = Done (Some d, None)
     /\ forall h w, d h w = (w, Done (Some muxer_func, None)))
  /\ (exists d : @MuxC nat,
     MuxerConstructor (DValue muxer_func) = Done (Some d, None)
     /\ forall h w, d h w = (w, Done (Some muxer_func, None)))
  /\ TransportConstructor (W := nat) (DValue muxer_func) =
    Done (None, Some (Errorf "expected transport constructor to return a transport and, optionally, an error"))
  /\ TransportConstructor (W := nat) (DValue callback) =
    Done (None, Some (Errorf "expected transport constructor to return a transport and, optionally, an error"))
  /\ TransportConstructor (DNamedFunc muxer_func NewTCPTransport) =
    Panic "reflect: nil type passed to Type.Implements"
  /\ TransportConstructor (W := nat) (DValue secure_a) =
    Done (None, Some (Errorf "expected a transport constructor (function) or a transport")).
Proof.
  split; [by eexists|]. split; [by eexists|]. by repeat split.
Qed.



(** A list whose second factory returns the insecure transport: the third
    factory is not called. *)
Lemma insecure_transport_is_forbidden_witness :
  makeSecurityTransport host0
    [{| MsSecC_SecC := counting secure_a; MsSecC_ID := "/a" |};
     {| MsSecC_SecC := counting (InsecureTransport "QmSelf");
        MsSecC_ID := insecure_ID |};
     {| MsSecC_SecC := counting secure_b; MsSecC_ID := "/c" |}]
    {| user := 0; calls := [] |} =
  ({| user := 2; calls := [0; 1] |},
   Done (None, Some (Errorf "cannot construct libp2p with an insecure transport, set the Insecure config option instead"))).
Proof.
  apply (insecure_transport_is_forbidden host0 _ {| user := 0; calls := [] |}
           2 1 (Some (InsecureTransport "QmSelf"))).
  - eapply reaches_later; [reflexivity|reflexivity|].
    apply reaches_here. reflexivity.
  - reflexivity.
Defined.

(** A factory that returns the value that [makeInsecureTransport]
    builds. *)
Lemma wrapped_insecure_transport_is_installed_witness :
  makeSecurityTransport host0
    [{| MsSecC_SecC := counting (makeInsecureTransport "QmSelf");
        MsSecC_ID := insecure_ID |}]
    {| user := 0; calls := [] |} =
  ({| user := 1; calls := [0] |},
   Done (Some (SSMuxer [(insecure_ID,
                         Some (SSMuxer [(insecure_ID,
                                         Some (InsecureTransport "QmSelf"))]))]),
         None)).
Proof.
  apply (wrapped_insecure_transport_is_installed host0
           (counting (makeInsecureTransport "QmSelf")) insecure_ID
           {| user := 0; calls := [] |} 1 (makeInsecureTransport "QmSelf")).
  - reflexivity.
  - discriminate.
Defined.

(** C9, as first stated, fails on these inputs.  A factory that builds its
    component once only: the first run returns a dispatcher, and the second
    run, in the state of the caller that the first run left, returns an
    error and no dispatcher.  And three factories that each return one of
    two transports in turn: the two runs return lists of the same length,
    with different transports at every place. *)
Lemma second_run_differs_from_the_first :
  makeSecurityTransport host0
    [{| MsSecC_SecC := once_only secure_a; MsSecC_ID := "/a" |}]
    {| user := 0; calls := [] |} =
  ({| user := 1; calls := [0] |},
   Done (Some (SSMuxer [("/a", Some secure_a)]), None))
  /\ makeSecurityTransport host0
    [{| MsSecC_SecC := once_only secure_a; MsSecC_ID := "/a" |}]
    {| user := 1; calls := [] |} =
  ({| user := 2; calls := [0] |}, Done (None, Some (Errorf "already built")))
  /\ makeTransports host0 upgrader0
    [fun h _ => alternating transport_a transport_b h;
     fun h _ => alternating transport_a transport_b h;
     fun h _ => alternating transport_a transport_b h]
    {| user := 0; calls := [] |} =
  ({| user := 3; calls := [0; 1; 2] |},
   Done (Some [Some transport_a; Some transport_b; Some transport_a], None))
  /\ makeTransports host0 upgrader0
    [fun h _ => alternating transport_a transport_b h;
     fun h _ => alternating transport_a transport_b h;
     fun h _ => alternating transport_a transport_b h]
    {| user := 3; calls := [] |} =
  ({| user := 6; calls := [0; 1; 2] |},
   Done (Some [Some transport_b; Some transport_a; Some transport_b], None)).
Proof.
  split; [|split; [|split]].
  - rewrite makeSecurityTransport_nonempty by done. reflexivity.
  - rewrite makeSecurityTransport_nonempty by done. reflexivity.
  - rewrite makeTransports_nonempty by done. reflexivity.
  - rewrite makeTransports_nonempty by done. reflexivity.
Qed.

(** Stateless factories that all deliver, run a second time in the state
    that the first run left: the same transports in the same order, and
    dispatchers with the same entries.  And factories that are not
    stateless, in two runs that both deliver: the two dispatchers have the
    same protocol IDs and the two transport lists the same length. *)
Lemma resolving_twice_gives_the_same_witness :
  ((makeTransports host0 upgrader0
     [fun h _ => counting transport_a h; fun h _ => counting transport_b h]
     {| user := 0; calls := [] |}).2 =
   (makeTransports host0 upgrader0
     [fun h _ => counting transport_a h; fun h _ => counting transport_b h]
     {| user := 2; calls := [] |}).2
   /\ (makeSecurityTransport host0
     [{| MsSecC_SecC := counting secure_a; MsSecC_ID := "/a" |};
      {| MsSecC_SecC := counting secure_b; MsSecC_ID := "/b" |}]
     {| user := 0; calls := [] |}).2 =
   (makeSecurityTransport host0
     [{| MsSecC_SecC := counting secure_a; MsSecC_ID := "/a" |};
      {| MsSecC_SecC := counting secure_b; MsSecC_ID := "/b" |}]
     {| user := 2; calls := [] |}).2
   /\ (makeMuxer host0
     [{| MsMuxC_MuxC := counting muxer_a; MsMuxC_ID := "/a" |}]
     {| user := 0; calls := [] |}).2 =
   (makeMuxer host0
     [{| MsMuxC_MuxC := counting muxer_a; MsMuxC_ID := "/a" |}]
     {| user := 2; calls := [] |}).2)
  /\ (makeSecurityTransport host0
     [{| MsSecC_SecC := counting secure_a; MsSecC_ID := "/a" |};
      {| MsSecC_SecC := counting secure_b; MsSecC_ID := "/b" |}]
     {| user := 0; calls := [] |}).2 =
     Done (Some (SSMuxer [("/a", Some secure_a); ("/b", Some secure_b)]), None)
  /\ dispatcher_keys (SSMuxer [("/a", Some secure_a)]) =
     dispatcher_keys (SSMuxer [("/a", Some secure_b)])
  /\ length [Some transport_a; Some transport_b; Some transport_a] =
     length [Some transport_b; Some transport_a; Some transport_b].
Proof.
  split; [|split; [|split]].
  - apply (proj1 (resolving_twice_gives_the_same host0 upgrader0 _ _ _ _ _)).
    + repeat constructor; intros w w'; reflexivity.
    + repeat constructor; intros w w'; reflexivity.
  - rewrite makeSecurityTransport_nonempty by done. reflexivity.
  - apply (proj1 (proj2 (proj2 (resolving_twice_gives_the_same
             host0 upgrader0 []
             [{| MsSecC_SecC := alternating secure_a secure_b;
                 MsSecC_ID := "/a" |}] []
             {| user := 0; calls := [] |} {| user := 1; calls := [] |})))
           host0 {| user := 1; calls := [0] |} {| user := 2; calls := [0] |}
           _ _ None None).
    + rewrite makeSecurityTransport_nonempty by done. reflexivity.
    + rewrite makeSecurityTransport_nonempty by done. reflexivity.
  - apply (proj1 (proj2 (resolving_twice_gives_the_same
             host0 upgrader0
             [fun h _ => alternating transport_a transport_b h;
              fun h _ => alternating transport_a transport_b h;
              fun h _ => alternating transport_a transport_b h] [] []
             {| user := 0; calls := [] |} {| user := 3; calls := [] |}))
           host0 upgrader0
           {| user := 3; calls := [0; 1; 2] |}
           {| user := 6; calls := [0; 1; 2] |}
           _ _ None None).
    + rewrite makeTransports_nonempty by done. reflexivity.
    + rewrite makeTransports_nonempty by done. reflexivity.
Defined.

(** A transport, a secure channel and a stream muxer given as they
    are. *)
Lemma constructed_component_is_returned_witness :
  (exists d : @TptC nat,
     TransportConstructor (DValue transport_a) = Done (Some d, None) /\
     forall h u w, d h u w = (w, Done (Some transport_a, None)))
  /\ (exists d : @SecC nat,
     SecurityConstructor (DValue secure_a) = Done (Some d, None) /\
     forall h w, d h w = (w, Done (Some secure_a, None)))
  /\ (exists d : @MuxC nat,
     MuxerConstructor (DValue muxer_a) = Done (Some d, None) /\
     forall h w, d h w = (w, Done (Some muxer_a, None))).
Proof.
  split; [|split].
  - apply (proj1 (constructed_component_is_returned transport_a)).
    reflexivity.
  - apply (proj1 (proj2 (constructed_component_is_returned secure_a))).
    reflexivity.
  - apply (proj2 (proj2 (constructed_component_is_returned muxer_a))).
    reflexivity.
Defined.



(** * Further properties of the aggregators *)

Section Aggregators.
Context {W : Type}.
Implicit Types (s : @state W) (h : Host) (u : Upgrader).

(** ** Every run of a list of factories falls in one of four cases *)

(** From any state, the factories of a list either all return a component
    that is accepted, or one of them is the first to return an error, or
    the first to return a component that is not accepted, or the first to
    panic. *)
Lemma run_cases {F : Type} (run : F -> user_code (option value * option value))
    (accept : option value -> bool) (fs : list F) (w : W) :
  (exists w' ts, all_succeed run accept fs w w' ts)
  \/ (exists w' n t e, reaches run accept fs w w' n (t, Some e))
  \/ (exists w' n t, reaches run accept fs w w' n (t, None) /\ accept t = false)
  \/ (exists pre f post w1 ts w' msg,
        fs = pre ++ f :: post /\
        all_succeed run accept pre w w1 ts /\
        run f w1 = (w', Panic msg)).
Proof.
  revert w. induction fs as [|f fs IH]; intros w.
  - left. exists w, []. constructor.
  - destruct (run f w) as [w1 [[t [e|]]|msg]] eqn:Hcall.
    + right. left. exists w1, 0, t, e. by constructor.
    + destruct (accept t) eqn:Hacc.
      * destruct (IH w1) as [(w' & ts & Hall)
          |[(w' & n & t' & e & Hreach)
          |[(w' & n & t' & Hreach & Hrej)
          |(pre & g & post & w2 & ts & w' & msg & -> & Hall & Hpanic)]]].
        -- left. exists w', (t :: ts). by econstructor.
        -- right. left. exists w', (S n), t', e. by econstructor.
        -- right. right. left. exists w', (S n), t'. split; [|done].
           by econstructor.
        -- right. right. right.
           exists (f :: pre), g, post, w2, (t :: ts), w', msg.
           split; [done|]. split; [|done]. by econstructor.
      * right. right. left. exists w1, 0, t. split; [|done]. by constructor.
    + right. right. right. exists [], f, fs, w, [], w1, msg.
      split; [done|]. split; [constructor|done].
Qed.

(** ** A factory that panics *)

Lemma makeTransports_loop_panic h u (pre : list (@TptC W)) f post :
  forall i transports s w1 ts w' msg,
    all_succeed (fun tC : TptC => tC h u) any_component pre (user s) w1 ts ->
    f h u w1 = (w', Panic msg) ->
    makeTransports_loop h u i (pre ++ f :: post) transports s =
    ({| user := w'; calls := calls s ++ seq i (S (length pre)) |}, Panic msg).
Proof.
  induction pre as [|tC rest IH]; intros i transports s w1 ts w' msg Hall Hpanic;
    inversion Hall as [|? ? ? w2 ? t ts0 Hcall _ Hrest]; subst; simpl;
    rewrite invoke_bind.
  - by rewrite Hpanic.
  - rewrite Hcall. simpl.
    rewrite (IH (S i) _ _ w1 ts0 w' msg) by done.
    simpl. by rewrite <- app_assoc.
Qed.

Lemma makeSecurityTransport_loop_panic h (pre : list (@MsSecC W)) c post :
  forall i secMuxer s w1 ts w' msg,
    all_succeed (fun c => MsSecC_SecC c h) not_insecure pre (user s) w1 ts ->
    MsSecC_SecC c h w1 = (w', Panic msg) ->
    makeSecurityTransport_loop h i (pre ++ c :: post) secMuxer s =
    ({| user := w'; calls := calls s ++ seq i (S (length pre)) |}, Panic msg).
Proof.
  induction pre as [|c0 rest IH]; intros i secMuxer s w1 ts w' msg Hall Hpanic;
    inversion Hall as [|? ? ? w2 ? t ts0 Hcall Hacc Hrest]; subst; simpl;
    rewrite invoke_bind.
  - by rewrite Hpanic.
  - rewrite Hcall. simpl.
    unfold not_insecure in Hacc. apply negb_true_iff in Hacc. rewrite Hacc.
    rewrite (IH (S i) _ _ w1 ts0 w' msg) by done.
    simpl. by rewrite <- app_assoc.
Qed.

(** ** What the result of an aggregator tells about the run *)

Lemma makeTransports_all h u (tpts : list (@TptC W)) s w' ts :
  tpts ≠ [] ->
  all_succeed (fun tC : TptC => tC h u) any_component tpts (user s) w' ts ->
  makeTransports h u tpts s =
  ({| user := w'; calls := calls s ++ seq 0 (length tpts) |},
   Done (Some ts, None)).
Proof.
  intros Hne Hall. rewrite makeTransports_nonempty by done.
  rewrite (makeTransports_loop_all h u tpts 0 _ s w' ts);
    [|by rewrite length_replicate|done].
  simpl. rewrite drop_replicate, Nat.sub_diag. simpl. by rewrite app_nil_r.
Qed.

Lemma makeTransports_cases h u (tpts : list (@TptC W)) s s' r :
  tpts ≠ [] ->
  makeTransports h u tpts s = (s', r) ->
  (exists ts,
     all_succeed (fun tC : TptC => tC h u) any_component tpts
                 (user s) (user s') ts /\
     calls s' = calls s ++ seq 0 (length tpts) /\
     r = Done (Some ts, None))
  \/ (exists n t e,
     reaches (fun tC : TptC => tC h u) any_component tpts
             (user s) (user s') n (t, Some e) /\
     calls s' = calls s ++ seq 0 (S n) /\
     r = Done (None, Some e))
  \/ (exists pre f post w1 ts msg,
     tpts = pre ++ f :: post /\
     all_succeed (fun tC : TptC => tC h u) any_component pre (user s) w1 ts /\
     f h u w1 = (user s', Panic msg) /\
     calls s' = calls s ++ seq 0 (S (length pre)) /\
     r = Panic msg).
Proof.
  intros Hne Hrun.
  destruct (run_cases (fun tC : TptC => tC h u) any_component tpts (user s))
    as [(w' & ts & Hall)
       |[(w' & n & t & e & Hreach)
       |[(w' & n & t & _ & Hrej)
       |(pre & f & post & w1 & ts & w' & msg & Heq & Hall & Hpanic)]]].
  - rewrite (makeTransports_all h u tpts s w' ts) in Hrun by done.
    injection Hrun as <- <-. left. by exists ts.
  - rewrite makeTransports_nonempty in Hrun by done.
    rewrite (makeTransports_loop_error h u tpts 0 _ s w' n t e) in Hrun by done.
    injection Hrun as <- <-. right. left. by exists n, t, e.
  - discriminate.
  - rewrite makeTransports_nonempty in Hrun by done. rewrite Heq in Hrun at 1.
    rewrite (makeTransports_loop_panic h u pre f post 0 _ s w1 ts w' msg)
      in Hrun by done.
    injection Hrun as <- <-. right. right.
    by exists pre, f, post, w1, ts, msg.
Qed.

Lemma makeSecurityTransport_cases h (secs : list (@MsSecC W)) s s' r :
  secs ≠ [] ->
  makeSecurityTransport h secs s = (s', r) ->
  (exists ts,
     all_succeed (fun c => MsSecC_SecC c h) not_insecure secs
                 (user s) (user s') ts /\
     calls s' = calls s ++ seq 0 (length secs) /\
     r = Done (Some (SSMuxer (zip (MsSecC_ID <$> secs) ts)), None))
  \/ (exists n t e,
     reaches (fun c => MsSecC_SecC c h) not_insecure secs
             (user s) (user s') n (t, Some e) /\
     calls s' = calls s ++ seq 0 (S n) /\
     r = Done (None, Some e))
  \/ (exists n t,
     reaches (fun c => MsSecC_SecC c h) not_insecure secs
             (user s) (user s') n (t, None) /\
     is_type insecure_Transport_ptr t = true /\
     calls s' = calls s ++ seq 0 (S n) /\
     r = Done (None, Some (Errorf "cannot construct libp2p with an insecure transport, set the Insecure config option instead")))
  \/ (exists pre c post w1 ts msg,
     secs = pre ++ c :: post /\
     all_succeed (fun c => MsSecC_SecC c h) not_insecure pre (user s) w1 ts /\
     MsSecC_SecC c h w1 = (user s', Panic msg) /\
     calls s' = calls s ++ seq 0 (S (length pre)) /\
     r = Panic msg).
Proof.
  intros Hne Hrun. rewrite makeSecurityTransport_nonempty in Hrun by done.
  destruct (run_cases (fun c => MsSecC_SecC c h) not_insecure secs (user s))
    as [(w' & ts & Hall)
       |[(w' & n & t & e & Hreach)
       |[(w' & n & t & Hreach & Hrej)
       |(pre & c & post & w1 & ts & w' & msg & Heq & Hall & Hpanic)]]].
  - rewrite (makeSecurityTransport_loop_all h secs 0 [] s w' ts) in Hrun by done.
    injection Hrun as <- <-. left. by exists ts.
  - rewrite (makeSecurityTransport_loop_error h secs 0 [] s w' n t e)
      in Hrun by done.
    injection Hrun as <- <-. right. left. by exists n, t, e.
  - unfold not_insecure in Hrej. apply negb_false_iff in Hrej.
    rewrite (makeSecurityTransport_loop_insecure h secs 0 [] s w' n t)
      in Hrun by done.
    injection Hrun as <- <-. right. right. left. by exists n, t.
  - rewrite Heq in Hrun.
    rewrite (makeSecurityTransport_loop_panic h pre c post 0 [] s w1 ts w' msg)
      in Hrun by done.
    injection Hrun as <- <-. right. right. right.
    by exists pre, c, post, w1, ts, msg.
Qed.

Lemma reaches_lt {F : Type} (run : F -> user_code _) accept fs (w w' : W) n r :
  reaches run accept fs w w' n r -> n < length fs.
Proof. induction 1; simpl; lia. Qed.

(** X1.  A transport list that [makeTransports] returns for a list of factories
    that is not empty tells the whole run: every factory was called exactly
    once, in the order of the list, each returned no error, and the list
    returned holds what they returned, in that order. *)
Theorem transports_returned_tell_the_run h u (tpts : list (@TptC W))
    s s' ts e :
  tpts ≠ [] ->
  makeTransports h u tpts s = (s', Done (Some ts, e)) ->
  all_succeed (fun tC : TptC => tC h u) any_component tpts (user s) (user s') ts
  /\ calls s' = calls s ++ seq 0 (length tpts)
  /\ length ts = length tpts.
Proof.
  intros Hne Hrun.
  destruct (makeTransports_cases h u tpts s s' _ Hne Hrun)
    as [(ts' & Hall & Hcalls & [= <-])
       |[(n & t & e' & _ & _ & [=])
       |(pre & f & post & w1 & ts' & msg & _ & _ & _ & _ & [=])]].
  split; [done|]. split; [done|]. by apply all_succeed_length in Hall.
Qed.

(** X2.  A dispatcher that [makeSecurityTransport] returns for a list that is
    not empty tells the whole run: every factory was called exactly once,
    in the order of the list, none returned an error or a
    [*insecure.Transport], and the dispatcher was given what they returned
    under the IDs of the list, in that order. *)
Theorem dispatcher_returned_tells_the_run h (secs : list (@MsSecC W))
    s s' d e :
  secs ≠ [] ->
  makeSecurityTransport h secs s = (s', Done (Some d, e)) ->
  exists ts,
    all_succeed (fun c => MsSecC_SecC c h) not_insecure secs
                (user s) (user s') ts
    /\ calls s' = calls s ++ seq 0 (length secs)
    /\ d = SSMuxer (zip (MsSecC_ID <$> secs) ts)
    /\ length ts = length secs.
Proof.
  intros Hne Hrun.
  destruct (makeSecurityTransport_cases h secs s s' _ Hne Hrun)
    as [(ts & Hall & Hcalls & [= -> _])
       |[(n & t & e' & _ & _ & [=])
       |[(n & t & _ & _ & _ & [=])
       |(pre & c & post & w1 & ts & msg & _ & _ & _ & _ & [=])]]].
  exists ts. repeat split; try done. by apply all_succeed_length in Hall.
Qed.

(** X3.  An error that [makeTransports] returns is the error that one of the
    factories returned: the factories before it were called in order and
    returned no error, those after it were not called, and no transport
    list is returned with it. *)
Theorem transport_error_comes_from_a_factory h u (tpts : list (@TptC W))
    s s' ts e :
  makeTransports h u tpts s = (s', Done (ts, Some e)) ->
  ts = None /\
  exists n t,
    reaches (fun tC : TptC => tC h u) any_component tpts
            (user s) (user s') n (t, Some e)
    /\ calls s' = calls s ++ seq 0 (S n).
Proof.
  intros Hrun. destruct tpts as [|tC rest].
  - by rewrite makeTransports_default in Hrun.
  - destruct (makeTransports_cases h u (tC :: rest) s s' _ ltac:(done) Hrun)
      as [(ts' & _ & _ & [=])
         |[(n & t & e' & Hreach & Hcalls & [= -> ->])
         |(pre & f & post & w1 & ts' & msg & _ & _ & _ & _ & [=])]].
    split; [done|]. by exists n, t.
Qed.

(** X4.  An error that [makeSecurityTransport] returns is the error that one of
    the factories returned, or it is the error about the insecure transport
    and one of the factories returned a [*insecure.Transport]; the
    duplicate error is never returned.  No dispatcher is returned with an
    error. *)
Theorem secure_error_comes_from_a_factory h (secs : list (@MsSecC W))
    s s' d e :
  makeSecurityTransport h secs s = (s', Done (d, Some e)) ->
  d = None /\
  exists n t,
    calls s' = calls s ++ seq 0 (S n) /\
    (reaches (fun c => MsSecC_SecC c h) not_insecure secs
             (user s) (user s') n (t, Some e)
     \/ (reaches (fun c => MsSecC_SecC c h) not_insecure secs
                 (user s) (user s') n (t, None)
         /\ is_type insecure_Transport_ptr t = true
         /\ e = Errorf "cannot construct libp2p with an insecure transport, set the Insecure config option instead")).
Proof.
  intros Hrun. destruct secs as [|c rest].
  - by rewrite makeSecurityTransport_default in Hrun.
  - destruct (makeSecurityTransport_cases h (c :: rest) s s' _ ltac:(done) Hrun)
      as [(ts & _ & _ & [=])
         |[(n & t & e' & Hreach & Hcalls & [= -> ->])
         |[(n & t & Hreach & Hins & Hcalls & [= -> ->])
         |(pre & c' & post & w1 & ts & msg & _ & _ & _ & _ & [=])]]].
    + split; [done|]. exists n, t. split; [done|]. by left.
    + split; [done|]. exists n, t. split; [done|]. by right.
Qed.

(** ** What the aggregators never do *)

(** X5.  An aggregator that returns hands back a result or an error, never both
    and never neither. *)
Theorem aggregators_return_result_or_error h u (tpts : list (@TptC W))
    (secs : list (@MsSecC W)) (muxs : list (@MsMuxC W)) s :
  match (makeTransports h u tpts s).2 with
  | Done (Some _, None) | Done (None, Some _) | Panic _ => True
  | Done _ => False
  end
  /\ match (makeSecurityTransport h secs s).2 with
     | Done (Some _, None) | Done (None, Some _) | Panic _ => True
     | Done _ => False
     end
  /\ match (makeMuxer h muxs s).2 with
     | Done (Some _, None) | Done (None, Some _) | Panic _ => True
     | Done _ => False
     end.
Proof.
  repeat split.
  - destruct tpts as [|tC rest]; [done|].
    destruct (makeTransports h u (tC :: rest) s) as [s' r] eqn:Hrun.
    destruct (makeTransports_cases h u (tC :: rest) s s' r ltac:(done) Hrun)
      as [(ts & _ & _ & ->)
         |[(n & t & e & _ & _ & ->)
         |(pre & f & post & w1 & ts & msg & _ & _ & _ & _ & ->)]]; done.
  - destruct secs as [|c rest]; [done|].
    destruct (makeSecurityTransport h (c :: rest) s) as [s' r] eqn:Hrun.
    destruct (makeSecurityTransport_cases h (c :: rest) s s' r ltac:(done) Hrun)
      as [(ts & _ & _ & ->)
         |[(n & t & e & _ & _ & ->)
         |[(n & t & _ & _ & _ & ->)
         |(pre & c' & post & w1 & ts & msg & _ & _ & _ & _ & ->)]]]; done.
  - destruct muxs as [|m rest]; [done|]. by rewrite makeMuxer_nonempty.
Qed.

(** X6.  A dispatcher that [makeSecurityTransport] returns, for any list and
    whatever the factories do, has no entry whose component is a
    [*insecure.Transport]. *)
Theorem no_insecure_transport_in_a_dispatcher h (secs : list (@MsSecC W))
    s s' d e :
  makeSecurityTransport h secs s = (s', Done (Some d, e)) ->
  exists entries,
    d = SSMuxer entries /\
    forall id v, (id, Some v) ∈ entries -> dynType v ≠ insecure_Transport_ptr.
Proof.
  intros Hrun. apply makeSecurityTransport_secure in Hrun
    as (entries & -> & Hsecure).
  exists entries. split; [done|]. intros id v Hin.
  rewrite Forall_forall in Hsecure. specialize (Hsecure _ Hin).
  simpl in Hsecure. by apply bool_decide_eq_false in Hsecure.
Qed.

(** X7.  Whatever the factories do (return, fail or panic), [makeTransports] and
    [makeSecurityTransport] call the factories of entries [0], [1], ...,
    [k - 1] in this order for some [k] up to the length of the list, and
    make no other call: no factory is called twice, none is skipped, none
    is called out of order. *)
Theorem factories_are_called_in_list_order h u (tpts : list (@TptC W))
    (secs : list (@MsSecC W)) s :
  (exists k, k ≤ length tpts /\
     calls (makeTransports h u tpts s).1 = calls s ++ seq 0 k)
  /\ (exists k, k ≤ length secs /\
     calls (makeSecurityTransport h secs s).1 = calls s ++ seq 0 k).
Proof.
  split.
  - destruct tpts as [|tC rest].
    { exists 0. split; [done|]. simpl. by rewrite app_nil_r. }
    destruct (makeTransports h u (tC :: rest) s) as [s' r] eqn:Hrun.
    destruct (makeTransports_cases h u (tC :: rest) s s' r ltac:(done) Hrun)
      as [(ts & _ & Hcalls & _)
         |[(n & t & e & Hreach & Hcalls & _)
         |(pre & f & post & w1 & ts & msg & Heq & _ & _ & Hcalls & _)]].
    + by exists (length (tC :: rest)).
    + exists (S n). split; [|done]. apply reaches_lt in Hreach. lia.
    + exists (S (length pre)). split; [|done].
      rewrite Heq, length_app. simpl. lia.
  - destruct secs as [|c rest].
    { exists 0. split; [done|]. simpl. by rewrite app_nil_r. }
    destruct (makeSecurityTransport h (c :: rest) s) as [s' r] eqn:Hrun.
    destruct (makeSecurityTransport_cases h (c :: rest) s s' r ltac:(done) Hrun)
      as [(ts & _ & Hcalls & _)
         |[(n & t & e & Hreach & Hcalls & _)
         |[(n & t & Hreach & _ & Hcalls & _)
         |(pre & c' & post & w1 & ts & msg & Heq & _ & _ & Hcalls & _)]]].
    + by exists (length (c :: rest)).
    + exists (S n). split; [|done]. apply reaches_lt in Hreach. lia.
    + exists (S n). split; [|done]. apply reaches_lt in Hreach. lia.
    + exists (S (length pre)). split; [|done].
      rewrite Heq, length_app. simpl. lia.
Qed.

(** X8.  [makeMuxer] calls no factory, returns no error and does not panic, for
    any list and any host: it leaves the state as it found it, and what it
    returns depends on nothing but whether the list is empty. *)
Theorem makeMuxer_calls_no_factory h (muxs : list (@MsMuxC W)) s :
  makeMuxer h muxs s =
  (s, Done (Some (MsmuxTransport
                    match muxs with
                    | [] => []
                    | _ => [("/yamux/1.0.0", Some yamux_DefaultTransport);
                            ("/mplex/6.3.0", Some mplex_DefaultTransport)]
                    end), None)).
Proof.
  destruct muxs as [|m rest]; [done|]. by rewrite makeMuxer_nonempty.
Qed.

(** X9.  A panic of a factory is the panic of the aggregator: when the
    factories before some entry return accepted components and the factory
    of that entry panics, the aggregator panics with the same message, in
    the state the factory left, and calls no later factory. *)
Theorem factory_panic_stops_the_aggregator h u s :
  (forall (pre : list (@TptC W)) f post w1 ts w' msg,
     all_succeed (fun tC : TptC => tC h u) any_component pre (user s) w1 ts ->
     f h u w1 = (w', Panic msg) ->
     makeTransports h u (pre ++ f :: post) s =
     ({| user := w'; calls := calls s ++ seq 0 (S (length pre)) |}, Panic msg))
  /\ (forall (pre : list (@MsSecC W)) c post w1 ts w' msg,
     all_succeed (fun c => MsSecC_SecC c h) not_insecure pre (user s) w1 ts ->
     MsSecC_SecC c h w1 = (w', Panic msg) ->
     makeSecurityTransport h (pre ++ c :: post) s =
     ({| user := w'; calls := calls s ++ seq 0 (S (length pre)) |}, Panic msg)).
Proof.
  split.
  - intros pre f post w1 ts w' msg Hall Hpanic.
    rewrite makeTransports_nonempty by (by destruct pre).
    by apply makeTransports_loop_panic with w1 ts.
  - intros pre c post w1 ts w' msg Hall Hpanic.
    rewrite makeSecurityTransport_nonempty by (by destruct pre).
    by apply makeSecurityTransport_loop_panic with w1 ts.
Qed.

(** ** Components given ready-made, from the normaliser to the aggregator *)

Lemma built_transports_all_succeed h u (vs : list value) (tpts : list (@TptC W)) w :
  Forall2 (fun v tC => TransportConstructor (DValue v) = Done (Some tC, None))
          vs tpts ->
  all_succeed (fun tC : TptC => tC h u) any_component tpts w w (Some <$> vs).
Proof.
  induction 1 as [|v tC vs tpts Hnorm _ IH]; [constructor|].
  rewrite fmap_cons. apply all_succeed_cons with w; [|done|done].
  unfold TransportConstructor in Hnorm. simpl in Hnorm.
  destruct (implements (dynType v) transport_Transport);
    [|by destruct (decide (kind (dynType v) ≠ reflect.Func))].
  by injection Hnorm as <-.
Qed.

(** X10.  Transports that are given ready-made come back as they were given: when
    every entry of a list that is not empty is what [TransportConstructor]
    returned for a value, [makeTransports] returns these values, in the
    order of the list, with no error, and leaves the caller's state
    untouched. *)
Theorem built_transports_are_returned h u (vs : list value)
    (tpts : list (@TptC W)) s :
  vs ≠ [] ->
  Forall2 (fun v tC => TransportConstructor (DValue v) = Done (Some tC, None))
          vs tpts ->
  makeTransports h u tpts s =
  ({| user := user s; calls := calls s ++ seq 0 (length vs) |},
   Done (Some (Some <$> vs), None)).
Proof.
  intros Hne Hnorm.
  rewrite (Forall2_length _ _ _ Hnorm).
  apply makeTransports_all.
  - intros ->. apply Forall2_nil_inv_r in Hnorm. done.
  - by apply built_transports_all_succeed.
Qed.

Lemma built_secure_all_succeed h (vs : list (string * value))
    (secs : list (@MsSecC W)) w :
  Forall2 (fun p c => MsSecC_ID c = p.1 /\
             SecurityConstructor (DValue p.2) = Done (Some (MsSecC_SecC c), None))
          vs secs ->
  Forall (fun p => dynType p.2 ≠ insecure_Transport_ptr) vs ->
  all_succeed (fun c => MsSecC_SecC c h) not_insecure secs w w (Some <$> vs.*2)
  /\ zip (MsSecC_ID <$> secs) (Some <$> vs.*2) =
     (fun p => (p.1, Some p.2)) <$> vs.
Proof.
  induction 1 as [|[id v] [f id'] vs secs [Hid Hnorm] _ IH];
    intros Htypes; [split; [constructor|done]|].
  apply Forall_cons in Htypes as [Htype Htypes].
  destruct (IH Htypes) as [Hall Hzip].
  simpl in Hid, Hnorm, Htype. subst id'. rewrite !fmap_cons.
  cbn [zip_with fst snd MsSecC_ID MsSecC_SecC].
  split; [|by rewrite Hzip].
  apply all_succeed_cons with w; [| |done]; cbn [MsSecC_SecC].
  - unfold SecurityConstructor in Hnorm. simpl in Hnorm.
    destruct (implements (dynType v) security_Transport);
      [|by destruct (decide (kind (dynType v) ≠ reflect.Func))].
    by injection Hnorm as <-.
  - unfold not_insecure. simpl. by rewrite bool_decide_eq_false_2.
Qed.

(** X11.  Secure channels that are given ready-made are installed as they were
    given: when every entry of a list that is not empty carries what
    [SecurityConstructor] returned for a value, and none of the values is a
    [*insecure.Transport], [makeSecurityTransport] returns a dispatcher
    that holds exactly these values under the IDs of the list, in the order
    of the list, with no error, and leaves the caller's state untouched. *)
Theorem built_secure_channels_are_installed h (vs : list (string * value))
    (secs : list (@MsSecC W)) s :
  vs ≠ [] ->
  Forall2 (fun p c => MsSecC_ID c = p.1 /\
             SecurityConstructor (DValue p.2) = Done (Some (MsSecC_SecC c), None))
          vs secs ->
  Forall (fun p => dynType p.2 ≠ insecure_Transport_ptr) vs ->
  makeSecurityTransport h secs s =
  ({| user := user s; calls := calls s ++ seq 0 (length vs) |},
   Done (Some (SSMuxer ((fun p => (p.1, Some p.2)) <$> vs)), None)).
Proof.
  intros Hne Hnorm Htypes.
  destruct (built_secure_all_succeed h vs secs (user s) Hnorm Htypes)
    as [Hall Hzip].
  rewrite makeSecurityTransport_nonempty.
  - rewrite (makeSecurityTransport_loop_all h secs 0 [] s (user s) _ Hall).
    simpl. by rewrite Hzip, (Forall2_length _ _ _ Hnorm).
  - intros ->. apply Forall2_nil_inv_r in Hnorm. done.
Qed.

End Aggregators.

(** * Further properties of the normalisers *)

Section Normalisers.
Context {W : Type}.

(** ** What a normaliser accepts *)

(** Past the type assertion, no normaliser returns a factory: the test of
    the kind refuses what is not a function, and the check of the results
    accepts no function. *)
Lemma TransportConstructor_function_path (x : @descriptor W) :
  assert_iface transport_Transport (as_interface x) = None ->
  match TransportConstructor x with
  | Done (None, Some _) | Panic _ => True
  | Done _ => False
  end.
Proof.
  intros Hassert. unfold TransportConstructor. rewrite Hassert.
  destruct (Type_of x) as [t|msg]; simpl; [|done].
  destruct (decide (kind t ≠ reflect.Func)); [done|].
  destruct (as_function x) as [f|]; [|done].
  rewrite check_results_eq.
  by destruct (Out f) as [|out0 [|out1 [|out2 rest]]].
Qed.

Lemma SecurityConstructor_function_path (x : @descriptor W) :
  assert_iface security_Transport (as_interface x) = None ->
  match SecurityConstructor x with
  | Done (None, Some _) | Panic _ => True
  | Done _ => False
  end.
Proof.
  intros Hassert. unfold SecurityConstructor. rewrite Hassert.
  destruct (Type_of x) as [t|msg]; simpl; [|done].
  destruct (decide (kind t ≠ reflect.Func)); [done|].
  destruct (as_function x) as [f|]; [|done].
  rewrite check_results_eq.
  by destruct (Out f) as [|out0 [|out1 [|out2 rest]]].
Qed.

Lemma MuxerConstructor_function_path (x : @descriptor W) :
  assert_iface mux_Transport (as_interface x) = None ->
  match MuxerConstructor x with
  | Done (None, Some _) | Panic _ => True
  | Done _ => False
  end.
Proof.
  intros Hassert. unfold MuxerConstructor. rewrite Hassert.
  destruct (Type_of x) as [t|msg]; simpl; [|done].
  destruct (decide (kind t ≠ reflect.Func)); [done|].
  destruct (as_function x) as [f|]; [|done].
  rewrite check_results_eq.
  by destruct (Out f) as [|out0 [|out1 [|out2 rest]]].
Qed.

Lemma assert_iface_Some (I : rtype) (x : option value) (t : value) :
  assert_iface I x = Some t <->
  x = Some t /\ implements (dynType t) I = true.
Proof.
  unfold assert_iface. destruct x as [v|]; [|by split; [|intros []]].
  destruct (implements (dynType v) I) eqn:Himpl.
  - split; [by intros [= <-]|by intros [[= <-] _]].
  - split; [done|]. intros [[= <-] Htrue]. congruence.
Qed.

(** X12.  A normaliser returns a factory exactly for the descriptors that,
    as interface values, pass its type assertion: values whose type
    implements the interface of its kind, functions of a named function
    type with the methods of the interface among them.  It returns none
    for [nil], for any other value, or by way of the checks it makes on a
    function. *)
Theorem only_built_components_are_accepted (x : @descriptor W) :
  ((exists d e, TransportConstructor x = Done (Some d, e)) <->
   (exists v, as_interface x = Some v
              /\ implements (dynType v) transport_Transport = true))
  /\ ((exists d e, SecurityConstructor x = Done (Some d, e)) <->
   (exists v, as_interface x = Some v
              /\ implements (dynType v) security_Transport = true))
  /\ ((exists d e, MuxerConstructor x = Done (Some d, e)) <->
   (exists v, as_interface x = Some v
              /\ implements (dynType v) mux_Transport = true)).
Proof.
  split; [|split]; split.
  - intros (d & e & Hnorm).
    destruct (assert_iface transport_Transport (as_interface x)) as [t|] eqn:Ha.
    + exists t. by apply assert_iface_Some.
    + apply TransportConstructor_function_path in Ha.
      by rewrite Hnorm in Ha.
  - intros (v & Hv & Himpl). unfold TransportConstructor.
    rewrite (proj2 (assert_iface_Some _ _ v)) by done. by eexists _, _.
  - intros (d & e & Hnorm).
    destruct (assert_iface security_Transport (as_interface x)) as [t|] eqn:Ha.
    + exists t. by apply assert_iface_Some.
    + apply SecurityConstructor_function_path in Ha.
      by rewrite Hnorm in Ha.
  - intros (v & Hv & Himpl). unfold SecurityConstructor.
    rewrite (proj2 (assert_iface_Some _ _ v)) by done. by eexists _, _.
  - intros (d & e & Hnorm).
    destruct (assert_iface mux_Transport (as_interface x)) as [t|] eqn:Ha.
    + exists t. by apply assert_iface_Some.
    + apply MuxerConstructor_function_path in Ha.
      by rewrite Hnorm in Ha.
  - intros (v & Hv & Himpl). unfold MuxerConstructor.
    rewrite (proj2 (assert_iface_Some _ _ v)) by done. by eexists _, _.
Qed.

(** X13.  A normaliser that returns hands back a factory or an error, never both
    and never neither. *)
Theorem normalisers_return_factory_or_error (x : @descriptor W) :
  match TransportConstructor x with
  | Done (Some _, None) | Done (None, Some _) | Panic _ => True
  | Done _ => False
  end
  /\ match SecurityConstructor x with
     | Done (Some _, None) | Done (None, Some _) | Panic _ => True
     | Done _ => False
     end
  /\ match MuxerConstructor x with
     | Done (Some _, None) | Done (None, Some _) | Panic _ => True
     | Done _ => False
     end.
Proof.
  split; [|split].
  - destruct (assert_iface transport_Transport (as_interface x)) as [t|] eqn:Ha.
    + unfold TransportConstructor. by rewrite Ha.
    + apply TransportConstructor_function_path in Ha.
      by destruct (TransportConstructor x) as [[[d|] [e|]]|msg].
  - destruct (assert_iface security_Transport (as_interface x)) as [t|] eqn:Ha.
    + unfold SecurityConstructor. by rewrite Ha.
    + apply SecurityConstructor_function_path in Ha.
      by destruct (SecurityConstructor x) as [[[d|] [e|]]|msg].
  - destruct (assert_iface mux_Transport (as_interface x)) as [t|] eqn:Ha.
    + unfold MuxerConstructor. by rewrite Ha.
    + apply MuxerConstructor_function_path in Ha.
      by destruct (MuxerConstructor x) as [[[d|] [e|]]|msg].
Qed.

(** ** The edges of a deferred factory *)

Lemma mapM_id_None (l : list (option value)) :
  None ∈ l -> mapM id l = None.
Proof.
  induction l as [|[a|] rest IH]; intros Hin.
  - by apply elem_of_nil in Hin.
  - apply elem_of_cons in Hin as [?|Hin]; [done|].
    cbn [mapM]. by rewrite (IH Hin).
  - done.
Qed.

(** X14.  A function that returns a [nil] component and no error makes its
    deferred factory panic, after the function has run: the aggregator gets
    no component and no error from it. *)
Theorem nil_component_makes_the_factory_panic {C : Type} (I : rtype)
    (v : @gofunc W) (news : list (C -> option value)) (ctx : C)
    (args : list value) (w w' : W) :
  (fun new => new ctx) <$> news = Some <$> args ->
  Forall2 (fun a T => assignable (dynType a) T = true) args (In v) ->
  body v args w = (w', Done [None]) \/ body v args w = (w', Done [None; None]) ->
  deferred I v (Some <$> news) ctx w =
  (w', Panic ("interface conversion: interface is not " ++ str I)).
Proof.
  intros Hargs Htypes Hbody.
  rewrite (deferred_calls I v news ctx args) by done.
  by destruct Hbody as [-> | ->].
Qed.

(** X15.  When the host has no value for one of the parameters (an extraction
    function returns [nil], as for a key that the peerstore lacks), the
    deferred factory panics in [reflect] and the function of the caller is
    not called: the state is untouched. *)
Theorem missing_value_makes_the_factory_panic {C : Type} (I : rtype)
    (v : @gofunc W) (news : list (C -> option value)) (ctx : C) (w : W) :
  length news = length (In v) ->
  None ∈ (fun new => new ctx) <$> news ->
  deferred I v (Some <$> news) ctx w =
  (w, Panic "reflect: Call using zero Value argument").
Proof.
  intros Hlen Hnil. unfold deferred, lift, mbind, user_code_bind.
  rewrite make_arguments_filled. unfold Call.
  rewrite decide_True by (by rewrite length_fmap).
  by rewrite mapM_id_None.
Qed.

(** ** The slots that the resolution returns *)

(** X16.  The resolution returns one slot for each parameter, and every slot but
    the first is [nil], whatever the table and the parameter types are. *)
Theorem resolution_fills_the_first_slot_only {C : Type}
    (argTypes : list (ArgType C)) (In_ : list rtype)
    (argConstructors : list (option (C -> option value))) :
  resolve_arguments argTypes In_ = Done (inl argConstructors) ->
  length argConstructors = length In_
  /\ forall i, 0 < i -> i < length In_ -> argConstructors !! i = Some None.
Proof.
  unfold resolve_arguments. destruct In_ as [|argType rest]; simpl.
  - intros [= <-]. split; [done|]. intros i _ Hi. simpl in Hi. lia.
  - destruct (first_match argTypes argType) as [[new|]|msg]; simpl;
      [|discriminate|discriminate].
    intros [= <-]. split; [simpl; by rewrite length_replicate|].
    intros [|i] Hpos Hi; [lia|]. simpl.
    apply lookup_replicate_2. lia.
Qed.

(** X17.  A function with two parameters or more gets a deferred factory
    that cannot be called: on whatever slots the resolution returns for its
    parameters, the deferred factory panics on the [nil] slot before the
    function of the caller is called. *)
Theorem second_parameter_makes_the_factory_panic {C : Type}
    (argTypes : list (ArgType C)) (I : rtype) (v : @gofunc W)
    (argConstructors : list (option (C -> option value))) (ctx : C) (w : W) :
  resolve_arguments argTypes (In v) = Done (inl argConstructors) ->
  2 ≤ length (In v) ->
  deferred I v argConstructors ctx w =
  (w, Panic "invalid memory address or nil pointer dereference").
Proof.
  unfold resolve_arguments.
  destruct (In v) as [|argType [|argType2 rest]]; simpl; [lia|lia|].
  destruct (first_match argTypes argType) as [[new|]|msg]; simpl;
    [|discriminate|discriminate].
  intros [= <-] _. unfold deferred, lift, mbind, user_code_bind.
  by rewrite (make_arguments_nil_slot [new] (replicate (length rest) None)).
Qed.

(** ** The scan of a table *)

(** X18.  The scan of a table stops at the first entry whose type implements the
    parameter type or makes [Implements] panic: it returns the extraction
    function of that entry in the first case and panics in the second, and
    does not look at the entries after it. *)
Theorem first_match_stops_at_first_entry {C : Type}
    (pre : list (ArgType C)) (at_ : ArgType C) (post : list (ArgType C))
    (argType : rtype) :
  Forall (fun a => Type_Implements (Type' a) (Some argType) = Done false) pre ->
  (Type_Implements (Type' at_) (Some argType) = Done true ->
   first_match (pre ++ at_ :: post) argType = Done (Some (New at_)))
  /\ (forall msg,
        Type_Implements (Type' at_) (Some argType) = Panic msg ->
        first_match (pre ++ at_ :: post) argType = Panic msg).
Proof.
  induction 1 as [|a pre Hno _ IH]; simpl.
  - split; [by intros ->|by intros msg ->].
  - rewrite Hno. simpl. exact IH.
Qed.

End Normalisers.

(** * The further properties on the concrete inputs *)

(** Two transport factories that succeed. *)
Lemma transports_returned_tell_the_run_witness :
  all_succeed (fun tC : TptC => tC host0 upgrader0) any_component
    [fun h _ => counting transport_a h; fun h _ => counting transport_b h]
    0 2 [Some transport_a; Some transport_b]
  /\ [0; 1] = [] ++ seq 0 2
  /\ length [Some transport_a; Some transport_b] = 2.
Proof.
  apply (transports_returned_tell_the_run host0 upgrader0
           [fun h _ => counting transport_a h; fun h _ => counting transport_b h]
           {| user := 0; calls := [] |} {| user := 2; calls := [0; 1] |}
           [Some transport_a; Some transport_b] None).
  - discriminate.
  - reflexivity.
Defined.

(** Two secure-channel factories that succeed. *)
Lemma dispatcher_returned_tells_the_run_witness :
  exists ts,
    all_succeed (fun c : MsSecC => MsSecC_SecC c host0) not_insecure
      [{| MsSecC_SecC := counting secure_a; MsSecC_ID := "/a" |};
       {| MsSecC_SecC := counting secure_b; MsSecC_ID := "/b" |}]
      0 2 ts
    /\ [0; 1] = [] ++ seq 0 2
    /\ SSMuxer [("/a", Some secure_a); ("/b", Some secure_b)] =
       SSMuxer (zip ["/a"; "/b"] ts)
    /\ length ts = 2.
Proof.
  apply (dispatcher_returned_tells_the_run host0
           [{| MsSecC_SecC := counting secure_a; MsSecC_ID := "/a" |};
            {| MsSecC_SecC := counting secure_b; MsSecC_ID := "/b" |}]
           {| user := 0; calls := [] |} {| user := 2; calls := [0; 1] |}
           (SSMuxer [("/a", Some secure_a); ("/b", Some secure_b)]) None).
  - discriminate.
  - rewrite makeSecurityTransport_nonempty by discriminate. reflexivity.
Defined.

(** A transport factory that fails between two that succeed. *)
Lemma transport_error_comes_from_a_factory_witness :
  (None : option (list (option value))) = None /\
  exists n t,
    reaches (fun tC : TptC => tC host0 upgrader0) any_component
      [fun h _ => counting transport_a h;
       fun h _ => failing (Errorf "no port") h;
       fun h _ => counting transport_b h]
      0 2 n (t, Some (Errorf "no port"))
    /\ [0; 1] = [] ++ seq 0 (S n).
Proof.
  apply (transport_error_comes_from_a_factory host0 upgrader0
           [fun h _ => counting transport_a h;
            fun h _ => failing (Errorf "no port") h;
            fun h _ => counting transport_b h]
           {| user := 0; calls := [] |} {| user := 2; calls := [0; 1] |}
           None (Errorf "no port")).
  reflexivity.
Defined.

(** A secure-channel factory that returns the insecure transport. *)
Lemma secure_error_comes_from_a_factory_witness :
  (None : option value) = None /\
  exists n t,
    [0; 1] = [] ++ seq 0 (S n) /\
    (reaches (fun c : MsSecC => MsSecC_SecC c host0) not_insecure
       [{| MsSecC_SecC := counting secure_a; MsSecC_ID := "/a" |};
        {| MsSecC_SecC := counting (InsecureTransport "QmSelf");
           MsSecC_ID := insecure_ID |}]
       0 2 n
       (t, Some (Errorf "cannot construct libp2p with an insecure transport, set the Insecure config option instead"))
     \/ (reaches (fun c : MsSecC => MsSecC_SecC c host0) not_insecure
           [{| MsSecC_SecC := counting secure_a; MsSecC_ID := "/a" |};
            {| MsSecC_SecC := counting (InsecureTransport "QmSelf");
               MsSecC_ID := insecure_ID |}]
           0 2 n (t, None)
         /\ is_type insecure_Transport_ptr t = true
         /\ Errorf "cannot construct libp2p with an insecure transport, set the Insecure config option instead" =
            Errorf "cannot construct libp2p with an insecure transport, set the Insecure config option instead")).
Proof.
  apply (secure_error_comes_from_a_factory host0
           [{| MsSecC_SecC := counting secure_a; MsSecC_ID := "/a" |};
            {| MsSecC_SecC := counting (InsecureTransport "QmSelf");
               MsSecC_ID := insecure_ID |}]
           {| user := 0; calls := [] |} {| user := 2; calls := [0; 1] |}
           None).
  rewrite makeSecurityTransport_nonempty by discriminate. reflexivity.
Defined.

(** The dispatcher of two secure-channel factories that succeed. *)
Lemma no_insecure_transport_in_a_dispatcher_witness :
  exists entries,
    SSMuxer [("/a", Some secure_a); ("/b", Some secure_b)] = SSMuxer entries /\
    forall id v, (id, Some v) ∈ entries -> dynType v ≠ insecure_Transport_ptr.
Proof.
  apply (no_insecure_transport_in_a_dispatcher host0
           [{| MsSecC_SecC := counting secure_a; MsSecC_ID := "/a" |};
            {| MsSecC_SecC := counting secure_b; MsSecC_ID := "/b" |}]
           {| user := 0; calls := [] |} {| user := 2; calls := [0; 1] |}
           _ None).
  rewrite makeSecurityTransport_nonempty by discriminate. reflexivity.
Defined.

(** A factory that panics after one that succeeds, in each aggregator. *)
Lemma factory_panic_stops_the_aggregator_witness :
  makeTransports host0 upgrader0
    ([fun h _ => counting transport_a h]
     ++ (fun h _ => panicking "boom" h) :: [fun h _ => counting transport_b h])
    {| user := 0; calls := [] |} =
  ({| user := 2; calls := [] ++ seq 0 2 |}, Panic "boom")
  /\ makeSecurityTransport host0
    ([{| MsSecC_SecC := counting secure_a; MsSecC_ID := "/a" |}]
     ++ {| MsSecC_SecC := panicking "boom"; MsSecC_ID := "/b" |}
        :: [{| MsSecC_SecC := counting secure_b; MsSecC_ID := "/c" |}])
    {| user := 0; calls := [] |} =
  ({| user := 2; calls := [] ++ seq 0 2 |}, Panic "boom").
Proof.
  destruct (factory_panic_stops_the_aggregator (W := nat) host0 upgrader0
              {| user := 0; calls := [] |}) as [Htpt Hsec].
  split.
  - apply (Htpt [fun h _ => counting transport_a h] _ _ 1 [Some transport_a]).
    + repeat (econstructor; try reflexivity).
    + reflexivity.
  - apply (Hsec [{| MsSecC_SecC := counting secure_a; MsSecC_ID := "/a" |}]
                _ _ 1 [Some secure_a]).
    + repeat (econstructor; try reflexivity).
    + reflexivity.
Defined.

(** A TCP and a WebSocket transport given ready-made. *)
Lemma built_transports_are_returned_witness :
  makeTransports (W := nat) host0 upgrader0
    [fun _ _ => mret (Some transport_a, None);
     fun _ _ => mret (Some transport_b, None)]
    {| user := 0; calls := [] |} =
  ({| user := 0; calls := [] ++ seq 0 2 |},
   Done (Some [Some transport_a; Some transport_b], None)).
Proof.
  apply (built_transports_are_returned host0 upgrader0
           [transport_a; transport_b]).
  - discriminate.
  - repeat constructor.
Defined.

(** Two secure channels given ready-made, one of them the dispatcher that
    [makeInsecureTransport] builds. *)
Lemma built_secure_channels_are_installed_witness :
  makeSecurityTransport (W := nat) host0
    [{| MsSecC_SecC := fun _ => mret (Some secure_a, None); MsSecC_ID := "/a" |};
     {| MsSecC_SecC := fun _ => mret (Some (makeInsecureTransport "QmSelf"), None);
        MsSecC_ID := insecure_ID |}]
    {| user := 0; calls := [] |} =
  ({| user := 0; calls := [] ++ seq 0 2 |},
   Done (Some (SSMuxer [("/a", Some secure_a);
                        (insecure_ID, Some (makeInsecureTransport "QmSelf"))]),
         None)).
Proof.
  apply (built_secure_channels_are_installed host0
           [("/a", secure_a); (insecure_ID, makeInsecureTransport "QmSelf")]).
  - discriminate.
  - repeat constructor.
  - repeat constructor; discriminate.
Defined.

(** A function that returns [nil]. *)
Lemma nil_component_makes_the_factory_panic_witness :
  deferred (C := Host * Upgrader) transport_Transport NewNothing []
    (host0, upgrader0) 0 =
  (1, Panic ("interface conversion: interface is not " ++ str transport_Transport)).
Proof.
  apply (nil_component_makes_the_factory_panic (C := Host * Upgrader)
           transport_Transport NewNothing [] (host0, upgrader0) [] 0 1).
  - reflexivity.
  - constructor.
  - left. reflexivity.
Defined.

(** A function that asks for the public key, on a host whose peerstore has
    none. *)
Lemma missing_value_makes_the_factory_panic_witness :
  deferred security_Transport NewSecureWithKey
    [Some (fun h => PubKey (Peerstore h) (ID h))] host0 0 =
  (0, Panic "reflect: Call using zero Value argument").
Proof.
  apply (missing_value_makes_the_factory_panic security_Transport
           NewSecureWithKey [fun h => PubKey (Peerstore h) (ID h)] host0 0).
  - reflexivity.
  - constructor.
Defined.

(** The parameters [(interface{}, io.Reader)] on the table of the
    transports. *)
Lemma resolution_fills_the_first_slot_only_witness :
  length [Some (fun '((h, u) : Host * Upgrader) => Some (upgrader_value u));
          None] =
  length [empty_interface; io_Reader]
  /\ forall i, 0 < i -> i < length [empty_interface; io_Reader] ->
       [Some (fun '((h, u) : Host * Upgrader) => Some (upgrader_value u)); None]
         !! i = Some None.
Proof.
  apply (resolution_fills_the_first_slot_only transportArgTypes
           [empty_interface; io_Reader]).
  reflexivity.
Defined.

(** A function of two parameters on the table of the transports. *)
Lemma second_parameter_makes_the_factory_panic_witness :
  deferred transport_Transport NewFromTwo
    [Some (fun '(h, u) => Some (upgrader_value u)); None] (host0, upgrader0) 0 =
  (0, Panic "invalid memory address or nil pointer dereference").
Proof.
  apply (second_parameter_makes_the_factory_panic transportArgTypes).
  - reflexivity.
  - simpl. lia.
Defined.

(** A table of two entries of [transportArgTypes], scanned for a parameter
    that the second implements and the first does not. *)
Lemma first_match_stops_at_first_entry_witness :
  first_match
    ([{| Type' := upgraderType;
         New := fun '((h, u) : Host * Upgrader) => Some (upgrader_value u) |}]
     ++ {| Type' := filtersType; New := fun '(h, u) => Some (Filters u) |}
        :: [{| Type' := hostType; New := fun '(h, u) => Some (host_value h) |}])
    addr_blocker =
  Done (Some (fun '(h, u) => Some (Filters u))).
Proof.
  apply (first_match_stops_at_first_entry
           [{| Type' := upgraderType;
               New := fun '((h, u) : Host * Upgrader) => Some (upgrader_value u) |}]
           {| Type' := filtersType; New := fun '(h, u) => Some (Filters u) |}).
  - repeat constructor.
  - reflexivity.
Defined.
